(** * RPG-Scribe localisation scripts: dotted-key addressing and flattening

    A shallow embedding of the three maintenance scripts of the repository

      - [fetch_en_values.py]  (value extractor,  [get_value_from_nested_dict])
      - [update_pl_ui.py]     (tree patcher,     [set_nested_value])
      - [extract_keys.py]     (key-set differ,   [extract_keys_recursive])

    The values handled by the scripts are whatever [json.loads] returns: a
    Python [dict] (insertion ordered, one entry per key), [str], [list],
    numbers, booleans and [None].  A [dict] is embedded as an association
    list that keeps the insertion order; the operations [d[k]], [k in d] and
    [d[k] = v] are [dict_get], [dict_mem] and [dict_set]. *)

From Stdlib Require Import List String Ascii Bool Arith Lia Sorted Permutation.
Import ListNotations.
Local Open Scope string_scope.
Local Open Scope list_scope.

Set Implicit Arguments.

(* ------------------------------------------------------------------ *)
(** ** Values *)

Unset Elimination Schemes.
Inductive json : Type :=
| JNull
| JBool (b : bool)
| JNum (literal : string)        (* int or float, kept as written; never inspected *)
| JStr (s : string)
| JList (elems : list json)
| JDict (items : list (string * json)).
Set Elimination Schemes.

(** [isinstance(x, dict)] and [isinstance(x, str)]. *)
Definition isinstance_dict (x : json) : bool :=
  match x with JDict _ => true | _ => false end.

Definition isinstance_str (x : json) : bool :=
  match x with JStr _ => true | _ => false end.

(** Structural induction that reaches the values of a mapping (the scripts
    never look inside a list, so lists carry no induction hypothesis). *)
Definition json_tree_ind (P : json -> Prop)
  (HNull : P JNull)
  (HBool : forall b, P (JBool b))
  (HNum : forall n, P (JNum n))
  (HStr : forall s, P (JStr s))
  (HList : forall l, P (JList l))
  (HDict : forall items, Forall (fun kv => P (snd kv)) items -> P (JDict items))
  : forall x, P x :=
  fix go (x : json) : P x :=
    match x with
    | JNull => HNull
    | JBool b => HBool b
    | JNum n => HNum n
    | JStr s => HStr s
    | JList l => HList l
    | JDict items =>
        HDict items
          ((fix all (l : list (string * json)) : Forall (fun kv => P (snd kv)) l :=
              match l with
              | [] => Forall_nil _
              | kv :: tl => Forall_cons kv (go (snd kv)) (all tl)
              end) items)
    end.

(* ------------------------------------------------------------------ *)
(** ** Python dictionaries as ordered association lists *)

Module Dict.
Section Ops.
Variable V : Type.

(** [d[k]] (after a successful membership test) / [d.get(k)]. *)
Fixpoint dict_get (k : string) (d : list (string * V)) : option V :=
  match d with
  | [] => None
  | (k', v) :: tl => if String.eqb k k' then Some v else dict_get k tl
  end.

(** [k in d]. *)
Definition dict_mem (k : string) (d : list (string * V)) : bool :=
  match dict_get k d with Some _ => true | None => false end.

(** [d[k] = v]: an existing key keeps its position, a new key goes last. *)
Fixpoint dict_set (d : list (string * V)) (k : string) (v : V)
  : list (string * V) :=
  match d with
  | [] => [(k, v)]
  | (k', v') :: tl =>
      if String.eqb k k' then (k', v) :: tl else (k', v') :: dict_set tl k v
  end.

(** The keys, in iteration order. *)
Definition dict_keys (d : list (string * V)) : list string := map fst d.
End Ops.
End Dict.
Export Dict.

(* ------------------------------------------------------------------ *)
(** ** Strings *)

Definition dot : ascii := "."%char.

(** [s.split(sep)] for a one-character separator: never an empty list. *)
Fixpoint str_split (sep : ascii) (s : string) : list string :=
  match s with
  | EmptyString => [EmptyString]
  | String c s' =>
      if Ascii.eqb c sep then EmptyString :: str_split sep s'
      else match str_split sep s' with
           | hd :: tl => String c hd :: tl
           | [] => [String c EmptyString]
           end
  end.

(** Truthiness of a string: [if prefix]. *)
Definition truthy (s : string) : bool :=
  match s with EmptyString => false | String _ _ => true end.

(** [c in s] for a character. *)
Fixpoint has_char (c : ascii) (s : string) : bool :=
  match s with
  | EmptyString => false
  | String a s' => Ascii.eqb a c || has_char c s'
  end.

(** The double quote character, for the f-string [f'"{k}"']. *)
Definition dquote : string := String (ascii_of_nat 34) EmptyString.

(* ------------------------------------------------------------------ *)
(** ** Python sets of strings and [sorted] *)

(** [set(keys)]: one copy of each element; the iteration order of a set is
    not observable here because every use goes through [sorted]. *)
Definition py_set (keys : list string) : list string := nodup string_dec keys.

(** [a - b] on sets. *)
Definition set_difference (a b : list string) : list string :=
  filter (fun k => negb (existsb (String.eqb k) b)) a.

Fixpoint insert_sorted (x : string) (l : list string) : list string :=
  match l with
  | [] => [x]
  | y :: tl => if String.leb x y then x :: l else y :: insert_sorted x tl
  end.

(** [sorted(l)] on strings (code point order is byte order in UTF-8). *)
Definition sorted (l : list string) : list string :=
  fold_right insert_sorted [] l.

(** The order [sorted] arranges by. *)
Definition str_le (a b : string) : Prop := String.leb a b = true.

(* ------------------------------------------------------------------ *)
(** ** The collaborators of the scripts: files and the JSON decoder *)

(** [open(path, 'r', encoding='utf-8')] followed by [f.read()]. *)
Inductive read_result : Type :=
| FileNotFoundError
| ReadException                 (* any other exception of open/read *)
| Content (text : string).

(** [json.loads(content)]. *)
Inductive loads_result : Type :=
| Decoded (value : json)
| JSONDecodeError
| LoadsException.               (* any other exception *)

Record Host : Type := {
  open_read : string -> read_result;
  strip_is_empty : string -> bool;       (* [not content.strip()] *)
  json_loads : string -> loads_result;
  open_write : string -> bool            (* [false]: [IOError] on writing *)
}.

(* ------------------------------------------------------------------ *)
(** ** fetch_en_values.py *)

Module FetchEnValues.

(** The [for k in keys] loop.  [None] is the early [return None]; [Some v]
    is the value of [current_val] when the loop runs to its end. *)
Fixpoint get_loop (current_val : json) (keys : list string) : option json :=
  match keys with
  | [] => Some current_val
  | k :: rest =>
      match current_val with
      | JDict items =>
          if dict_mem k items then
            match dict_get k items with
            | Some v => get_loop v rest
            | None => None
            end
          else None
      | _ => None
      end
  end.

(** The function returns a Python object or [None]; the object is kept as a
    [json] so that what is returned can be stated, not assumed. *)
Definition get_value_from_nested_dict (data_dict : json) (key_string : string)
  : option json :=
  let keys := str_split dot key_string in
  match get_loop data_dict keys with
  | None => None
  | Some current_val =>
      if isinstance_str current_val then Some current_val else None
  end.

Definition target_keys : list string :=
  [ "forms.tabs.advanced"; "forms.tabs.basic"; "forms.tabs.details";
    "forms.tabs.history"; "forms.tabs.metadata"; "forms.tabs.notes";
    "forms.tabs.permissions"; "forms.tabs.properties"; "forms.tabs.relationships";
    "forms.tabs.secrets"; "forms.validation.categoryRequired";
    "forms.validation.descriptionRequired"; "forms.validation.fileTooLarge";
    "forms.validation.invalidFileType"; "forms.validation.nameRequired";
    "forms.validation.passwordTooShort"; "forms.validation.passwordsDoNotMatch";
    "forms.validation.titleRequired"; "forms.validation.typeRequired" ]%string.

Definition ui_en_file_path : string := "public/locales/en/ui.json".

(** [f"ERROR: Value for key '{key}' not found or not a string."] *)
Definition error_value (key : string) : string :=
  ("ERROR: Value for key '" ++ key ++ "' not found or not a string.")%string.

(** One turn of [for key in target_keys]. *)
Definition record_key (ui_en_data : json) (results : list (string * json))
           (key : string) : list (string * json) :=
  match get_value_from_nested_dict ui_en_data key with
  | Some value => dict_set results key value
  | None => dict_set results key (JStr (error_value key))
  end.

Definition collect (ui_en_data : json) (keys : list string)
  : list (string * json) :=
  fold_left (record_key ui_en_data) keys [].

(** [main]: the mapping handed to [json.dumps] and printed.  Every
    [except] branch prints [json.dumps({})]. *)
Definition main (h : Host) : list (string * json) :=
  match open_read h ui_en_file_path with
  | FileNotFoundError => []
  | ReadException => []
  | Content content =>
      if strip_is_empty h content then []
      else match json_loads h content with
           | Decoded ui_en_data => collect ui_en_data target_keys
           | JSONDecodeError => []
           | LoadsException => []
           end
  end.

End FetchEnValues.

(* ------------------------------------------------------------------ *)
(** ** update_pl_ui.py *)

Module UpdatePlUi.

(** The [for i, k in enumerate(keys)] loop, run on the mapping that
    [current_level] refers to; [n] is [len(keys)].  The loop mutates the
    mappings in place and moves [current_level] one level down; here the
    result is the content of the mapping the loop was entered with, once
    the rest of the loop has run (the mapping stored under [k] is the very
    object the rest of the loop goes on mutating).  No mapping is reachable
    along two paths: the tree comes from [json.loads] or from
    [OrderedDict()], and the loop stores fresh mappings only, so a write
    through [current_level] is seen at one place of the tree. *)
Fixpoint set_loop (n i : nat) (keys : list string)
         (current_level : list (string * json)) (value : json)
  : list (string * json) :=
  match keys with
  | [] => current_level
  | k :: rest =>
      if Nat.eqb i (n - 1) then
        set_loop n (S i) rest (dict_set current_level k value) value
      else
        let fresh :=
          match dict_get k current_level with
          | None => true                                   (* k not in current_level *)
          | Some old => negb (isinstance_dict old)         (* not a dict *)
          end in
        let next_level :=
          if fresh then []                                 (* OrderedDict() *)
          else match dict_get k current_level with
               | Some (JDict sub) => sub
               | _ => []
               end in
        dict_set current_level k (JDict (set_loop n (S i) rest next_level value))
  end.

(** The call on a Python object: the object [data_dict] refers to after the
    call.  Only the root can make the call raise: item assignment with a
    string key needs a mapping ([TypeError] otherwise, rendered as [None]);
    below the root a non-mapping is overwritten. *)
Definition set_nested_value (data_dict : json) (key_string : string) (value : json)
  : option json :=
  let keys := str_split dot key_string in
  match data_dict with
  | JDict items => Some (JDict (set_loop (List.length keys) 0 keys items value))
  | _ => None
  end.

Definition new_translations : list (string * string) :=
  [ ("forms.tabs.advanced", "Zaawansowane");
    ("forms.tabs.basic", "Podstawowe informacje");
    ("forms.tabs.details", "Szczegóły");
    ("forms.tabs.history", "Historia");
    ("forms.tabs.metadata", "Metadane");
    ("forms.tabs.notes", "Notatki");
    ("forms.tabs.permissions", "Uprawnienia");
    ("forms.tabs.properties", "Właściwości");
    ("forms.tabs.relationships", "Relacje");
    ("forms.tabs.secrets", "Sekrety MG");
    ("forms.validation.categoryRequired", "Kategoria jest wymagana");
    ("forms.validation.descriptionRequired", "Opis jest wymagany");
    ("forms.validation.fileTooLarge", "Plik jest za duży (maks. {{maxSize}})");
    ("forms.validation.invalidFileType",
     "Nieprawidłowy typ pliku (dozwolone: {{allowedTypes}})");
    ("forms.validation.nameRequired", "Nazwa jest wymagana");
    ("forms.validation.passwordTooShort", "Hasło musi mieć co najmniej 8 znaków");
    ("forms.validation.passwordsDoNotMatch", "Hasła się nie zgadzają");
    ("forms.validation.titleRequired", "Tytuł jest wymagany");
    ("forms.validation.typeRequired", "Typ jest wymagany") ]%string.

Definition target_file_path : string := "public/locales/pl/ui.json".

(** [for key, value in patches.items(): set_nested_value(existing_data, key, value)];
    [None] when a call raises. *)
Fixpoint apply_patches (existing_data : json) (patches : list (string * string))
  : option json :=
  match patches with
  | [] => Some existing_data
  | (key, value) :: rest =>
      match set_nested_value existing_data key (JStr value) with
      | Some updated => apply_patches updated rest
      | None => None
      end
  end.

Inductive run_result : Type :=
| Written (path : string) (tree : json)    (* file rewritten, exit status 0 *)
| ExitFailure                              (* [sys.exit(1)] after an [IOError] *)
| Uncaught.                                (* an exception leaves [main] *)

(** The tree [main] starts from; [None] when the exception is one of those
    the [try] does not catch. *)
Definition load_existing (h : Host) : option json :=
  match open_read h target_file_path with
  | FileNotFoundError => Some (JDict [])
  | ReadException => None
  | Content content =>
      if strip_is_empty h content then Some (JDict [])
      else match json_loads h content with
           | Decoded value => Some value
           | JSONDecodeError => Some (JDict [])
           | LoadsException => None
           end
  end.

Definition main (h : Host) : run_result :=
  match load_existing h with
  | None => Uncaught
  | Some existing_data =>
      match apply_patches existing_data new_translations with
      | None => Uncaught
      | Some updated =>
          if open_write h target_file_path
          then Written target_file_path updated
          else ExitFailure
      end
  end.

End UpdatePlUi.

(* ------------------------------------------------------------------ *)
(** ** extract_keys.py *)

Module ExtractKeys.

Fixpoint extract_keys_recursive (data : json) (prefix : string) : list string :=
  match data with
  | JDict items =>
      flat_map
        (fun kv : string * json =>
           let (key, value) := kv in
           let current_key :=
             if truthy prefix then (prefix ++ "." ++ key)%string else key in
           match value with
           | JDict _ => extract_keys_recursive value current_key
           | JStr _ => [current_key]
           | _ => []
           end)
        items
  | _ => []
  end.

(** [f"public/locales/{lang_code}/{namespace}.json"] *)
Definition locale_file_path (lang_code namespace : string) : string :=
  ("public/locales/" ++ lang_code ++ "/" ++ namespace ++ ".json")%string.

(** [f"missing_pl_{ns}_keys"] *)
Definition result_label (ns : string) : string :=
  ("missing_pl_" ++ ns ++ "_keys")%string.

(** Every [return set()] of the [try] is the empty set. *)
Definition get_keys_for_language (h : Host) (lang_code namespace : string)
  : list string :=
  let file_path := locale_file_path lang_code namespace in
  match open_read h file_path with
  | FileNotFoundError => py_set []
  | ReadException => py_set []
  | Content content =>
      if strip_is_empty h content then py_set []
      else match json_loads h content with
           | Decoded json_data => py_set (extract_keys_recursive json_data "")
           | JSONDecodeError => py_set []
           | LoadsException => py_set []
           end
  end.

Definition namespaces : list string := ["common"; "entities"; "ui"]%string.

(** One turn of [for ns in namespaces]. *)
Definition diff_namespace (h : Host) (results : list (string * list string))
           (ns : string) : list (string * list string) :=
  let en_keys := get_keys_for_language h "en" ns in
  let pl_keys := get_keys_for_language h "pl" ns in
  let missing_keys := sorted (set_difference en_keys pl_keys) in
  dict_set results (result_label ns) missing_keys.

Definition results_of (h : Host) (nss : list string)
  : list (string * list string) :=
  fold_left (diff_namespace h) nss [].

(** [f"{key_name}: [{keys_str}]"]. *)
Definition format_line (entry : string * list string) : string :=
  let (key_name, key_list) := entry in
  let keys_str :=
    String.concat ", " (map (fun k => dquote ++ k ++ dquote)%string key_list) in
  (key_name ++ ": [" ++ keys_str ++ "]")%string.

(** [main]: the lines printed on standard output. *)
Definition main (h : Host) : list string :=
  map format_line (results_of h namespaces).

End ExtractKeys.

Import FetchEnValues UpdatePlUi ExtractKeys.

(* ------------------------------------------------------------------ *)
(** ** Notions the statements are written with *)

(** Representation invariant of a tree of Python dictionaries: inside one
    mapping every key occurs once.  Lists are opaque to the scripts and are
    not looked into. *)
Fixpoint distinct (l : list string) : bool :=
  match l with
  | [] => true
  | k :: tl => negb (existsb (String.eqb k) tl) && distinct tl
  end.

Fixpoint uniq_keys (x : json) : bool :=
  match x with
  | JDict items =>
      distinct (map fst items)
      && forallb (fun kv : string * json => let (_, v) := kv in uniq_keys v) items
  | _ => true
  end.

(** No key of any mapping of the tree contains the separator. *)
Fixpoint dot_free_keys (x : json) : bool :=
  match x with
  | JDict items =>
      forallb (fun kv : string * json =>
                 let (k, v) := kv in negb (has_char dot k) && dot_free_keys v)
              items
  | _ => true
  end.

(** The root mapping has no empty key that holds a mapping. *)
Definition no_empty_root_mapping (x : json) : bool :=
  match x with
  | JDict items =>
      forallb (fun kv : string * json =>
                 let (k, v) := kv in truthy k || negb (isinstance_dict v))
              items
  | _ => true
  end.

(** Following a list of segments from a node, one mapping entry per
    segment, arrives at a node. *)
Inductive reaches : json -> list string -> json -> Prop :=
| reaches_here : forall x, reaches x [] x
| reaches_step : forall items k child rest y,
    dict_get k items = Some child ->
    reaches child rest y ->
    reaches (JDict items) (k :: rest) y.

(** The overwrite policy of the patcher, in the words of its contract: an
    intermediate segment that is absent or not a mapping becomes a fresh
    empty mapping, the last segment is assigned the value. *)
Fixpoint set_by_policy (tree : list (string * json)) (segments : list string)
         (value : json) : list (string * json) :=
  match segments with
  | [] => tree
  | [k] => dict_set tree k value
  | k :: rest =>
      let child :=
        match dict_get k tree with
        | Some (JDict sub) => sub
        | _ => []
        end in
      dict_set tree k (JDict (set_by_policy child rest value))
  end.

(** [p] is an initial part of [q] (or equal to it). *)
Fixpoint is_prefix (p q : list string) : bool :=
  match p, q with
  | [], _ => true
  | _ :: _, [] => false
  | a :: p', b :: q' => String.eqb a b && is_prefix p' q'
  end.

(** Two dotted keys address independent paths. *)
Definition independent (k1 k2 : string) : Prop :=
  is_prefix (str_split dot k1) (str_split dot k2) = false /\
  is_prefix (str_split dot k2) (str_split dot k1) = false.

Inductive opt_rel (A : Type) (R : A -> A -> Prop) : option A -> option A -> Prop :=
| opt_rel_none : opt_rel R None None
| opt_rel_some : forall a b, R a b -> opt_rel R (Some a) (Some b).

(** Equality of trees as mappings: the same keys with the same values at
    every level, whatever the order of the keys. *)
Unset Elimination Schemes.
Inductive same_mapping : json -> json -> Prop :=
| same_dict : forall d1 d2,
    (forall k, opt_rel same_mapping (dict_get k d1) (dict_get k d2)) ->
    same_mapping (JDict d1) (JDict d2)
| same_other : forall x, isinstance_dict x = false -> same_mapping x x.
Set Elimination Schemes.

(** The mapping found under [k], the empty mapping when [k] is absent or
    holds something else. *)
Definition child_of (tree : list (string * json)) (k : string)
  : list (string * json) :=
  match dict_get k tree with
  | Some (JDict sub) => sub
  | _ => []
  end.

(** What the policy stores under the first segment of a path. *)
Definition entry_value (tree : list (string * json)) (k : string)
           (rest : list string) (value : json) : json :=
  match rest with
  | [] => value
  | _ :: _ => JDict (set_by_policy (child_of tree k) rest value)
  end.

(** What one turn of the [for key, value in data.items()] loop of
    [extract_keys_recursive] adds to [keys]. *)
Definition entry_keys (prefix : string) (kv : string * json) : list string :=
  let (key, value) := kv in
  let current_key := if truthy prefix then (prefix ++ "." ++ key)%string else key in
  match value with
  | JDict _ => extract_keys_recursive value current_key
  | JStr _ => [current_key]
  | _ => []
  end.

(** The value the extractor records for a key. *)
Definition entry_for (data : json) (key : string) : json :=
  match get_value_from_nested_dict data key with
  | Some value => value
  | None => JStr (error_value key)
  end.

(** Loading a file succeeds with a decoded value ... *)
Definition loads (h : Host) (path : string) (data : json) : Prop :=
  exists content,
    open_read h path = Content content /\
    strip_is_empty h content = false /\
    json_loads h content = Decoded data.

(** ... or fails: file not found, any other exception while reading, an
    empty file, malformed JSON, any other exception while decoding. *)
Definition load_fails (h : Host) (path : string) : Prop :=
  open_read h path = FileNotFoundError \/
  open_read h path = ReadException \/
  exists content,
    open_read h path = Content content /\
    (strip_is_empty h content = true \/
     (strip_is_empty h content = false /\ json_loads h content = JSONDecodeError) \/
     (strip_is_empty h content = false /\ json_loads h content = LoadsException)).

(** Two calls of [set_nested_value] on the same object, one after the
    other, as two turns of the patch loop of [main] make them. *)
Definition set_twice (data_dict : json) (k1 : string) (v1 : json)
           (k2 : string) (v2 : json) : option json :=
  match set_nested_value data_dict k1 v1 with
  | Some updated => set_nested_value updated k2 v2
  | None => None
  end.

(** A host where only the English [common] file exists; the decoder gives
    the tree [{a: x}] for its content. *)
Definition host_en_common_only : Host :=
  {| open_read := fun path =>
       if String.eqb path "public/locales/en/common.json"
       then Content "en-common" else FileNotFoundError;
     strip_is_empty := fun _ => false;
     json_loads := fun _ => Decoded (JDict [("a", JStr "x")]);
     open_write := fun _ => true |}.

(** Two small trees used as examples: leaves next to a number and a list. *)
Definition sample_tree : json :=
  JDict [("x", JDict [("y", JStr "v"); ("n", JNum "3")]); ("z", JStr "w")].

Definition sample_tree_with_list : json :=
  JDict [("x", JDict [("y", JStr "v"); ("n", JNum "3")]);
         ("l", JList [JStr "e"]); ("z", JStr "w")].

(** The boolean form of [independent]. *)
Definition independentb (k1 k2 : string) : bool :=
  negb (is_prefix (str_split dot k1) (str_split dot k2))
  && negb (is_prefix (str_split dot k2) (str_split dot k1)).

(** Every two keys of a list address independent paths. *)
Fixpoint pairwise_independent (keys : list string) : bool :=
  match keys with
  | [] => true
  | k :: tl => forallb (independentb k) tl && pairwise_independent tl
  end.

(** The patch loop of [main] on the content of a mapping, with the policy
    in place of the calls. *)
Definition patch_all (items : list (string * json))
           (patches : list (string * string)) : list (string * json) :=
  fold_left
    (fun tree kv => set_by_policy tree (str_split dot (fst kv)) (JStr (snd kv)))
    patches items.

(** A host whose target file decodes to the given value. *)
Definition host_with_target (data : json) (writable : bool) : Host :=
  {| open_read := fun path =>
       if String.eqb path "public/locales/pl/ui.json"
       then Content "pl-ui" else FileNotFoundError;
     strip_is_empty := fun _ => false;
     json_loads := fun _ => Decoded data;
     open_write := fun _ => writable |}.

(** A host where both [ui] files exist: the English one decodes to
    [sample_tree], the Polish one to a tree with the key [z] only. *)
Definition host_both_ui : Host :=
  {| open_read := fun path =>
       if String.eqb path "public/locales/en/ui.json" then Content "en-ui"
       else if String.eqb path "public/locales/pl/ui.json" then Content "pl-ui"
       else FileNotFoundError;
     strip_is_empty := fun _ => false;
     json_loads := fun content =>
       if String.eqb content "en-ui" then Decoded sample_tree
       else Decoded (JDict [("z", JStr "w")]);
     open_write := fun _ => true |}.

(* ================================================================== *)
(** * Properties *)

(** ** Dictionaries *)

Section DictFacts.
Variable V : Type.
Implicit Types (d : list (string * V)) (k : string) (v : V).

Lemma dict_get_set_same d k v : dict_get k (dict_set d k v) = Some v.
Proof.
  induction d as [|[k' v'] tl IH]; simpl.
  - now rewrite String.eqb_refl.
  - destruct (String.eqb k k') eqn:E; simpl; rewrite E; auto.
Qed.

Lemma dict_get_set_other d k k' v :
  k <> k' -> dict_get k' (dict_set d k v) = dict_get k' d.
Proof.
  intros Hne. induction d as [|[k0 v0] tl IH]; simpl.
  - apply String.eqb_neq in Hne. now rewrite String.eqb_sym, Hne.
  - destruct (String.eqb k k0) eqn:E; simpl.
    + apply String.eqb_eq in E. subst k0.
      assert (String.eqb k' k = false) as ->; auto.
      apply String.eqb_neq. congruence.
    + now rewrite IH.
Qed.

Lemma dict_get_set d k k' v :
  dict_get k' (dict_set d k v) = if String.eqb k k' then Some v else dict_get k' d.
Proof.
  destruct (String.eqb_spec k k') as [->|Hne].
  - apply dict_get_set_same.
  - now apply dict_get_set_other.
Qed.

Lemma dict_set_twice d k v w : dict_set (dict_set d k v) k w = dict_set d k w.
Proof.
  induction d as [|[k' v'] tl IH]; simpl.
  - now rewrite String.eqb_refl.
  - destruct (String.eqb k k') eqn:E; simpl; rewrite E; congruence.
Qed.

Lemma dict_mem_get d k : dict_mem k d = true <-> exists v, dict_get k d = Some v.
Proof.
  unfold dict_mem. destruct (dict_get k d); split; eauto; try discriminate.
  intros [v Hv]; discriminate.
Qed.

Lemma dict_get_In d k v : dict_get k d = Some v -> In (k, v) d.
Proof.
  induction d as [|[k' v'] tl IH]; simpl; [discriminate|].
  destruct (String.eqb_spec k k') as [->|Hne].
  - intros [= ->]. now left.
  - intros H. right. auto.
Qed.

(** A new key is appended, a known key keeps its place. *)
Lemma dict_keys_set d k v :
  dict_keys (dict_set d k v) =
  if dict_mem k d then dict_keys d else dict_keys d ++ [k].
Proof.
  unfold dict_keys, dict_mem. induction d as [|[k' v'] tl IH]; simpl; auto.
  destruct (String.eqb k k') eqn:E; simpl; auto.
  rewrite IH. now destruct (dict_get k tl).
Qed.
End DictFacts.

(** ** Splitting on the separator *)

Lemma str_split_nonempty sep s : str_split sep s <> [].
Proof.
  destruct s as [|c s]; simpl; [discriminate|].
  destruct (Ascii.eqb c sep); [discriminate|].
  destruct (str_split sep s); discriminate.
Qed.

(** ** Walking a path *)

Lemma get_loop_reaches x segs y : get_loop x segs = Some y <-> reaches x segs y.
Proof.
  revert x. induction segs as [|k rest IH]; intros x; simpl.
  - split.
    + intros [= ->]. constructor.
    + inversion 1; subst. reflexivity.
  - split.
    + destruct x; try discriminate.
      unfold dict_mem. destruct (dict_get k items) as [c|] eqn:E; [|discriminate].
      intros H. apply IH in H. econstructor; eauto.
    + inversion 1; subst. unfold dict_mem.
      rewrite H3. now apply IH.
Qed.

Lemma reaches_functional x segs y z : reaches x segs y -> reaches x segs z -> y = z.
Proof.
  intros Hy Hz. apply get_loop_reaches in Hy, Hz. congruence.
Qed.

Lemma get_value_spec data key r :
  get_value_from_nested_dict data key = Some r <->
  reaches data (str_split dot key) r /\ isinstance_str r = true.
Proof.
  unfold get_value_from_nested_dict.
  destruct (get_loop data (str_split dot key)) as [cv|] eqn:E.
  - apply get_loop_reaches in E.
    destruct (isinstance_str cv) eqn:S; split.
    + intros [= <-]. auto.
    + intros [H _]. f_equal. eapply reaches_functional; eauto.
    + discriminate.
    + intros [H Hs]. assert (cv = r) by (eapply reaches_functional; eauto).
      congruence.
  - split; [discriminate|]. intros [H _]. apply get_loop_reaches in H. congruence.
Qed.

(** ** The patcher's loop and its policy *)

Lemma set_loop_policy keys : forall n i tree value,
  n = i + List.length keys ->
  set_loop n i keys tree value = set_by_policy tree keys value.
Proof.
  induction keys as [|k rest IH]; intros n i tree value Hn; simpl; auto.
  destruct rest as [|k2 rest'].
  - simpl in Hn. assert (Nat.eqb i (n - 1) = true) as -> by (apply Nat.eqb_eq; lia).
    reflexivity.
  - assert (Nat.eqb i (n - 1) = false) as ->
        by (apply Nat.eqb_neq; simpl in Hn; lia).
    rewrite (IH n (S i)) by (simpl in *; lia).
    f_equal. f_equal. f_equal.
    destruct (dict_get k tree) as [[]|]; reflexivity.
Qed.

Lemma set_nested_value_policy items key value :
  set_nested_value (JDict items) key value =
  Some (JDict (set_by_policy items (str_split dot key) value)).
Proof.
  unfold set_nested_value. now rewrite set_loop_policy.
Qed.

Lemma set_by_policy_reaches segs : forall tree value,
  segs <> [] -> reaches (JDict (set_by_policy tree segs value)) segs value.
Proof.
  induction segs as [|k rest IH]; intros tree value Hne; [congruence|].
  destruct rest as [|k2 rest'].
  - simpl. econstructor; [apply dict_get_set_same|constructor].
  - cbn [set_by_policy]. econstructor; [apply dict_get_set_same|].
    apply IH. discriminate.
Qed.

(** ** Paths that leave the patched path *)

Lemma set_by_policy_cons tree k rest value :
  set_by_policy tree (k :: rest) value =
  dict_set tree k (entry_value tree k rest value).
Proof. destruct rest; reflexivity. Qed.

Lemma get_loop_empty_dict q : q <> [] -> get_loop (JDict []) q = None.
Proof. destruct q; [congruence|reflexivity]. Qed.

Lemma get_loop_not_dict x q :
  isinstance_dict x = false -> q <> [] -> get_loop x q = None.
Proof. destruct q; [congruence|]. destruct x; simpl; congruence. Qed.

Lemma get_loop_child_of tree k q :
  q <> [] -> get_loop (JDict tree) (k :: q) = get_loop (JDict (child_of tree k)) q.
Proof.
  intros Hq. unfold child_of. simpl. unfold dict_mem.
  destruct (dict_get k tree) as [x|] eqn:E.
  - destruct x; try (rewrite get_loop_empty_dict by assumption;
                     apply get_loop_not_dict; auto).
    reflexivity.
  - now rewrite get_loop_empty_dict.
Qed.

Lemma is_prefix_nil_r q : is_prefix q [] = false -> q <> [].
Proof. destruct q; simpl; congruence. Qed.

Lemma set_by_policy_frame segs : forall tree value q,
  is_prefix q segs = false ->
  is_prefix segs q = false ->
  get_loop (JDict (set_by_policy tree segs value)) q = get_loop (JDict tree) q.
Proof.
  induction segs as [|k rest IH]; intros tree value q Hq Hs; [discriminate|].
  destruct q as [|a q']; [discriminate|].
  rewrite set_by_policy_cons. simpl in Hq, Hs.
  destruct (String.eqb_spec a k) as [->|Hne].
  - rewrite String.eqb_refl in Hs. simpl in Hq, Hs.
    assert (Hq' : q' <> []).
    { destruct q'; [discriminate|discriminate]. }
    destruct rest as [|k2 rest']; [discriminate|].
    rewrite (get_loop_child_of tree k Hq'), <- (IH (child_of tree k) value q' Hq Hs).
    simpl. unfold dict_mem. rewrite dict_get_set_same. reflexivity.
  - simpl. unfold dict_mem.
    rewrite dict_get_set_other by congruence. reflexivity.
Qed.

(** ** Patches on independent paths *)

Lemma same_mapping_refl : forall x, same_mapping x x.
Proof.
  induction x as [| | | | |items IH] using json_tree_ind;
    try (now apply same_other).
  apply same_dict. intros k.
  destruct (dict_get k items) as [v|] eqn:E; constructor.
  apply dict_get_In in E. rewrite Forall_forall in IH. apply (IH (k, v) E).
Qed.

Lemma opt_rel_same_refl (o : option json) : opt_rel same_mapping o o.
Proof. destruct o; constructor. apply same_mapping_refl. Qed.

Lemma child_of_set_same tree k sub : child_of (dict_set tree k (JDict sub)) k = sub.
Proof. unfold child_of. now rewrite dict_get_set_same. Qed.

Lemma child_of_set_other tree k k' x :
  k <> k' -> child_of (dict_set tree k x) k' = child_of tree k'.
Proof. intros H. unfold child_of. now rewrite dict_get_set_other. Qed.

Lemma set_by_policy_commute s1 : forall s2 tree v1 v2,
  is_prefix s1 s2 = false ->
  is_prefix s2 s1 = false ->
  same_mapping
    (JDict (set_by_policy (set_by_policy tree s1 v1) s2 v2))
    (JDict (set_by_policy (set_by_policy tree s2 v2) s1 v1)).
Proof.
  induction s1 as [|a r1 IH]; intros s2 tree v1 v2 H12 H21; [discriminate|].
  destruct s2 as [|b r2]; [discriminate|].
  simpl in H12, H21.
  destruct (String.eqb_spec a b) as [->|Hne].
  - rewrite String.eqb_refl in H21. simpl in H12, H21.
    destruct r1 as [|a1 r1']; [discriminate|].
    destruct r2 as [|b1 r2']; [destruct r1'; discriminate|].
    rewrite !(set_by_policy_cons _ b). unfold entry_value.
    rewrite !child_of_set_same, !dict_set_twice.
    apply same_dict. intros k. rewrite !dict_get_set.
    destruct (String.eqb b k).
    + constructor. now apply IH.
    + apply opt_rel_same_refl.
  - assert (Hne' : b <> a) by congruence.
    rewrite (set_by_policy_cons (set_by_policy tree (a :: r1) v1) b).
    rewrite (set_by_policy_cons (set_by_policy tree (b :: r2) v2) a).
    rewrite !(set_by_policy_cons tree).
    assert (E2 : entry_value (dict_set tree a (entry_value tree a r1 v1)) b r2 v2
                 = entry_value tree b r2 v2).
    { unfold entry_value at 1 3. now rewrite child_of_set_other. }
    assert (E1 : entry_value (dict_set tree b (entry_value tree b r2 v2)) a r1 v1
                 = entry_value tree a r1 v1).
    { unfold entry_value at 1 3. now rewrite child_of_set_other. }
    rewrite E1, E2.
    apply same_dict. intros k. rewrite !dict_get_set.
    destruct (String.eqb_spec a k) as [->|Hak];
      destruct (String.eqb_spec b k) as [->|Hbk];
      try congruence; apply opt_rel_same_refl.
Qed.

Lemma same_mapping_str s y : same_mapping (JStr s) y -> y = JStr s.
Proof. inversion 1; reflexivity. Qed.

Lemma same_mapping_get_loop segs : forall x y,
  same_mapping x y -> opt_rel same_mapping (get_loop x segs) (get_loop y segs).
Proof.
  induction segs as [|k rest IH]; intros x y Hxy; simpl.
  - now constructor.
  - inversion Hxy as [d1 d2 Hd|x' Hx]; subst.
    + unfold dict_mem. specialize (Hd k).
      inversion Hd as [|c1 c2 Hc]; [constructor|]. now apply IH.
    + apply opt_rel_same_refl.
Qed.

Lemma same_mapping_isinstance_str x y :
  same_mapping x y -> isinstance_str x = true -> x = y.
Proof.
  intros H Hs. destruct x; try discriminate. symmetry. now apply same_mapping_str.
Qed.

Lemma same_mapping_get x y key :
  same_mapping x y ->
  get_value_from_nested_dict x key = get_value_from_nested_dict y key.
Proof.
  intros Hxy. unfold get_value_from_nested_dict.
  pose proof (same_mapping_get_loop (str_split dot key) Hxy) as H.
  inversion H as [|a b Hab]; [reflexivity|].
  destruct (isinstance_str a) eqn:Sa.
  - rewrite <- (same_mapping_isinstance_str Hab Sa), Sa. reflexivity.
  - destruct (isinstance_str b) eqn:Sb; [|reflexivity].
    destruct b; try discriminate. inversion Hab; subst. discriminate.
Qed.

(** ** Dotted keys: splitting and joining *)

Lemma str_split_app_dot p k :
  str_split dot (p ++ "." ++ k)%string = str_split dot p ++ str_split dot k.
Proof.
  induction p as [|c p IH].
  - reflexivity.
  - change ((String c p ++ "." ++ k)%string) with (String c (p ++ "." ++ k)%string).
    cbn [str_split]. rewrite IH.
    destruct (Ascii.eqb c dot); [reflexivity|].
    destruct (str_split dot p) as [|h t] eqn:E; [|reflexivity].
    now apply str_split_nonempty in E.
Qed.

Lemma str_split_dot_free k : has_char dot k = false -> str_split dot k = [k].
Proof.
  induction k as [|c k IH]; simpl; [reflexivity|].
  intros H. apply orb_false_iff in H as [Hc Hk].
  rewrite Hc, (IH Hk). reflexivity.
Qed.

Lemma str_join_split s : String.concat "." (str_split dot s) = s.
Proof.
  induction s as [|c s IH]; [reflexivity|].
  cbn [str_split].
  destruct (str_split dot s) as [|h t] eqn:E; [now apply str_split_nonempty in E|].
  destruct (Ascii.eqb_spec c dot) as [->|Hne].
  - change (String.concat "." ("" :: h :: t))
      with ("" ++ "." ++ String.concat "." (h :: t))%string.
    now rewrite IH.
  - destruct t as [|h2 t]; [simpl in *; congruence|].
    change (String.concat "." (String c h :: h2 :: t))
      with (String c (h ++ "." ++ String.concat "." (h2 :: t)))%string.
    now rewrite <- IH.
Qed.

Lemma truthy_append p q : truthy p = true -> truthy (p ++ q)%string = true.
Proof. destruct p; [discriminate|reflexivity]. Qed.

(** ** Flattening *)

Lemma distinct_dict_get (items : list (string * json)) k v :
  distinct (map fst items) = true -> In (k, v) items -> dict_get k items = Some v.
Proof.
  induction items as [|[k0 v0] tl IH]; simpl; [tauto|].
  intros Hd [Heq|Hin].
  - injection Heq as -> ->. now rewrite String.eqb_refl.
  - apply andb_true_iff in Hd as [Hfresh Hd].
    destruct (String.eqb_spec k k0) as [->|Hne]; [|auto].
    exfalso. apply negb_true_iff in Hfresh.
    assert (existsb (String.eqb k0) (map fst tl) = true); [|congruence].
    apply existsb_exists. exists k0. split; [|apply String.eqb_refl].
    apply (in_map fst) in Hin. exact Hin.
Qed.

Lemma uniq_keys_entry items k v :
  uniq_keys (JDict items) = true -> In (k, v) items ->
  dict_get k items = Some v /\ uniq_keys v = true.
Proof.
  cbn [uniq_keys]. intros H Hin. apply andb_true_iff in H as [Hd Hall].
  split; [now apply distinct_dict_get|].
  rewrite forallb_forall in Hall. apply (Hall (k, v) Hin).
Qed.

Lemma dot_free_keys_entry items k v :
  dot_free_keys (JDict items) = true -> In (k, v) items ->
  has_char dot k = false /\ dot_free_keys v = true.
Proof.
  cbn [dot_free_keys]. intros H Hin.
  rewrite forallb_forall in H. specialize (H (k, v) Hin). cbn in H.
  apply andb_true_iff in H as [Hk Hv]. apply negb_true_iff in Hk. auto.
Qed.

Lemma no_empty_root_mapping_entry items k sub :
  no_empty_root_mapping (JDict items) = true -> In (k, JDict sub) items ->
  truthy k = true.
Proof.
  cbn [no_empty_root_mapping]. intros H Hin.
  rewrite forallb_forall in H. specialize (H (k, JDict sub) Hin). cbn in H.
  now rewrite orb_false_r in H.
Qed.

Lemma extract_keys_dict items prefix :
  extract_keys_recursive (JDict items) prefix = flat_map (entry_keys prefix) items.
Proof. reflexivity. Qed.

Lemma in_extract_keys_dict items prefix k :
  In k (extract_keys_recursive (JDict items) prefix) <->
  exists key value, In (key, value) items /\ In k (entry_keys prefix (key, value)).
Proof.
  rewrite extract_keys_dict, in_flat_map. split.
  - intros [[key value] [H1 H2]]. eauto.
  - intros (key & value & H1 & H2). eauto.
Qed.

(** Below a non-empty prefix every emitted key is the prefix followed by
    the segments of a path to a string leaf. *)
Lemma extract_keys_sound_below : forall data prefix k,
  truthy prefix = true ->
  uniq_keys data = true ->
  dot_free_keys data = true ->
  In k (extract_keys_recursive data prefix) ->
  exists segs s,
    str_split dot k = str_split dot prefix ++ segs /\ reaches data segs (JStr s).
Proof.
  induction data as [| | | | |items IH] using json_tree_ind;
    intros prefix k Hp Hu Hd Hin; try contradiction.
  apply in_extract_keys_dict in Hin as (key & value & Hkv & Hin).
  destruct (uniq_keys_entry _ _ _ Hu Hkv) as [Hget Huv].
  destruct (dot_free_keys_entry _ _ _ Hd Hkv) as [Hkey Hdv].
  rewrite Forall_forall in IH. specialize (IH (key, value) Hkv). cbn [snd] in IH.
  cbn [entry_keys] in Hin. rewrite Hp in Hin.
  destruct value; try contradiction.
  - destruct Hin as [<-|[]]. exists [key], s. split.
    + now rewrite str_split_app_dot, (str_split_dot_free _ Hkey).
    + econstructor; [eassumption|constructor].
  - destruct (IH _ _ (truthy_append _ _ Hp) Huv Hdv Hin) as (segs & s & Hs & Hr).
    exists (key :: segs), s. split.
    + rewrite Hs, str_split_app_dot, (str_split_dot_free _ Hkey), <- app_assoc.
      reflexivity.
    + econstructor; eassumption.
Qed.

Lemma extract_keys_sound data k :
  uniq_keys data = true ->
  dot_free_keys data = true ->
  no_empty_root_mapping data = true ->
  In k (extract_keys_recursive data "") ->
  exists s, reaches data (str_split dot k) (JStr s).
Proof.
  intros Hu Hd Hn Hin. destruct data; try contradiction.
  apply in_extract_keys_dict in Hin as (key & value & Hkv & Hin).
  destruct (uniq_keys_entry _ _ _ Hu Hkv) as [Hget Huv].
  destruct (dot_free_keys_entry _ _ _ Hd Hkv) as [Hkey Hdv].
  cbn [entry_keys truthy] in Hin.
  destruct value; try contradiction.
  - destruct Hin as [<-|[]]. exists s.
    rewrite (str_split_dot_free _ Hkey). econstructor; [eassumption|constructor].
  - pose proof (no_empty_root_mapping_entry _ _ _ Hn Hkv) as Hne.
    destruct (extract_keys_sound_below _ _ _ Hne Huv Hdv Hin) as (segs & s & Hs & Hr).
    exists s. rewrite Hs, (str_split_dot_free _ Hkey).
    econstructor; eassumption.
Qed.

Lemma reaches_from_dict x rest y :
  reaches x rest y -> rest <> [] -> exists items, x = JDict items.
Proof. inversion 1; subst; [congruence|eauto]. Qed.

(** Below a non-empty prefix every path to a string leaf is emitted. *)
Lemma extract_keys_complete_below data segs y :
  reaches data segs y ->
  forall s prefix, y = JStr s -> segs <> [] -> truthy prefix = true ->
  In (prefix ++ "." ++ String.concat "." segs)%string
     (extract_keys_recursive data prefix).
Proof.
  induction 1 as [x|items k child rest y Hget Hr IH];
    intros s prefix -> Hne Hp; [congruence|].
  apply in_extract_keys_dict. exists k, child.
  split; [now apply dict_get_In|].
  cbn [entry_keys]. rewrite Hp.
  destruct rest as [|k2 rest'].
  - inversion Hr; subst. now left.
  - destruct (reaches_from_dict Hr) as [sub ->]; [discriminate|].
    specialize (IH s (prefix ++ "." ++ k)%string eq_refl).
    change (String.concat "." (k :: k2 :: rest'))
      with (k ++ "." ++ String.concat "." (k2 :: rest'))%string.
    replace (prefix ++ "." ++ k ++ "." ++ String.concat "." (k2 :: rest'))%string
      with ((prefix ++ "." ++ k) ++ "." ++ String.concat "." (k2 :: rest'))%string.
    + apply IH; [discriminate|now apply truthy_append].
    + clear. induction prefix; simpl; [reflexivity|now f_equal].
Qed.

Lemma extract_keys_complete data k s :
  no_empty_root_mapping data = true ->
  reaches data (str_split dot k) (JStr s) ->
  In k (extract_keys_recursive data "").
Proof.
  intros Hn Hr. rewrite <- (str_join_split k). revert Hr.
  destruct (str_split dot k) as [|k1 rest] eqn:E; [now apply str_split_nonempty in E|].
  intros Hr.
  inversion Hr as [|items k' child rest' y Hget Hr']; subst.
  apply in_extract_keys_dict. exists k1, child.
  split; [now apply dict_get_In|].
  cbn [entry_keys truthy].
  destruct rest as [|k2 rest2].
  - inversion Hr'; subst. now left.
  - destruct (reaches_from_dict Hr') as [sub ->]; [discriminate|].
    pose proof (no_empty_root_mapping_entry _ _ _ Hn (dict_get_In _ _ Hget)) as Hk1.
    change (String.concat "." (k1 :: k2 :: rest2))
      with (k1 ++ "." ++ String.concat "." (k2 :: rest2))%string.
    eapply extract_keys_complete_below; eauto. discriminate.
Qed.

(** ** The extractor's result mapping *)

Lemma dict_mem_keys (V : Type) (d : list (string * V)) k :
  dict_mem k d = true <-> In k (dict_keys d).
Proof.
  unfold dict_mem, dict_keys. induction d as [|[k' v'] tl IH]; simpl.
  - split; [discriminate|tauto].
  - destruct (String.eqb_spec k k') as [->|Hne].
    + split; auto.
    + rewrite IH. split; [auto|]. intros [H|H]; [congruence|auto].
Qed.

Lemma in_dict_keys_set (V : Type) (d : list (string * V)) a v k :
  In k (dict_keys (dict_set d a v)) <-> k = a \/ In k (dict_keys d).
Proof.
  rewrite dict_keys_set. destruct (dict_mem a d) eqn:E.
  - apply dict_mem_keys in E. split; [auto|]. intros [->|H]; auto.
  - rewrite in_app_iff. simpl. intuition.
Qed.

Lemma NoDup_dict_keys_set (V : Type) (d : list (string * V)) a v :
  NoDup (dict_keys d) -> NoDup (dict_keys (dict_set d a v)).
Proof.
  intros Hd. rewrite dict_keys_set. destruct (dict_mem a d) eqn:E; [assumption|].
  assert (Ha : ~ In a (dict_keys d)).
  { intros Hin. apply dict_mem_keys in Hin. congruence. }
  clear E. induction (dict_keys d) as [|x l IH]; simpl.
  - constructor; [tauto|constructor].
  - inversion Hd; subst. constructor.
    + rewrite in_app_iff. simpl in *. intuition.
    + apply IH; [assumption|]. simpl in Ha. tauto.
Qed.

Lemma record_key_eq data results key :
  record_key data results key = dict_set results key (entry_for data key).
Proof.
  unfold record_key, entry_for.
  now destruct (get_value_from_nested_dict data key).
Qed.

Lemma fold_record_keys data keys : forall acc,
  NoDup (dict_keys acc) ->
  NoDup (dict_keys (fold_left (record_key data) keys acc)) /\
  (forall k, In k (dict_keys (fold_left (record_key data) keys acc)) <->
             In k (dict_keys acc) \/ In k keys).
Proof.
  induction keys as [|a keys IH]; intros acc Hacc; simpl.
  - split; [assumption|]. intros k. tauto.
  - destruct (IH (record_key data acc a)) as [Hnd Hin].
    + rewrite record_key_eq. now apply NoDup_dict_keys_set.
    + split; [assumption|]. intros k. rewrite Hin, record_key_eq, in_dict_keys_set.
      intuition.
Qed.

Lemma fold_record_get_out data keys : forall acc k,
  ~ In k keys ->
  dict_get k (fold_left (record_key data) keys acc) = dict_get k acc.
Proof.
  induction keys as [|a keys IH]; intros acc k Hk; simpl; [reflexivity|].
  rewrite IH by (simpl in Hk; tauto).
  rewrite record_key_eq. apply dict_get_set_other. simpl in Hk. intuition.
Qed.

Lemma fold_record_get_in data keys : forall acc k,
  In k keys ->
  dict_get k (fold_left (record_key data) keys acc) = Some (entry_for data k).
Proof.
  induction keys as [|a keys IH]; intros acc k Hk; simpl; [contradiction|].
  destruct (in_dec string_dec k keys) as [Hin|Hout].
  - now apply IH.
  - destruct Hk as [->|Hk]; [|contradiction].
    rewrite fold_record_get_out by assumption.
    rewrite record_key_eq. apply dict_get_set_same.
Qed.

Lemma fold_record_order data keys : forall acc,
  NoDup keys ->
  (forall k, In k keys -> ~ In k (dict_keys acc)) ->
  dict_keys (fold_left (record_key data) keys acc) = dict_keys acc ++ keys.
Proof.
  induction keys as [|a keys IH]; intros acc Hnd Hfresh; simpl.
  - now rewrite app_nil_r.
  - inversion Hnd as [|a' l Ha Hnd']; subst.
    assert (Hmem : dict_mem a acc = false).
    { destruct (dict_mem a acc) eqn:E; [|reflexivity].
      apply dict_mem_keys in E. exfalso. apply (Hfresh a); simpl; auto. }
    assert (Hkeys : dict_keys (record_key data acc a) = dict_keys acc ++ [a]).
    { now rewrite record_key_eq, dict_keys_set, Hmem. }
    rewrite IH, Hkeys, <- app_assoc; [reflexivity|assumption|].
    intros k Hk. rewrite Hkeys, in_app_iff. simpl.
    intros [H|[->|[]]]; [|contradiction].
    apply (Hfresh k); simpl; auto.
Qed.

Lemma distinct_NoDup l : distinct l = true -> NoDup l.
Proof.
  induction l as [|a l IH]; simpl; intros H; constructor;
    apply andb_true_iff in H as [Ha Hl]; auto.
  intros Hin. apply negb_true_iff in Ha.
  assert (existsb (String.eqb a) l = true); [|congruence].
  apply existsb_exists. exists a. split; [assumption|apply String.eqb_refl].
Qed.

Lemma entry_for_cases data key :
  exists s, entry_for data key = JStr s /\
    (get_value_from_nested_dict data key = Some (JStr s) \/
     (get_value_from_nested_dict data key = None /\ s = error_value key)).
Proof.
  unfold entry_for.
  destruct (get_value_from_nested_dict data key) as [r|] eqn:E.
  - apply get_value_spec in E as [_ Hs]. destruct r; try discriminate. eauto.
  - eauto.
Qed.

Lemma fetch_main_loaded h data :
  loads h ui_en_file_path data -> FetchEnValues.main h = collect data target_keys.
Proof.
  intros (content & Hr & He & Hd). unfold FetchEnValues.main.
  now rewrite Hr, He, Hd.
Qed.

Lemma fetch_main_failed h :
  load_fails h ui_en_file_path -> FetchEnValues.main h = [].
Proof.
  unfold FetchEnValues.main.
  intros [Hr|[Hr|(content & Hr & [He|[[He Hd]|[He Hd]]])]]; rewrite Hr; auto;
    rewrite He; auto; now rewrite Hd.
Qed.

(** ** The differ's key sets *)

Lemma get_keys_failed h lang ns :
  load_fails h (locale_file_path lang ns) -> get_keys_for_language h lang ns = [].
Proof.
  unfold get_keys_for_language.
  intros [Hr|[Hr|(content & Hr & [He|[[He Hd]|[He Hd]]])]]; rewrite Hr; auto;
    rewrite He; auto; now rewrite Hd.
Qed.

Lemma set_difference_nil_r a : set_difference a [] = a.
Proof.
  unfold set_difference. induction a as [|x a IH]; simpl in *; [reflexivity|].
  now f_equal.
Qed.

Lemma results_of_namespaces h :
  results_of h namespaces =
  map (fun ns =>
         (result_label ns,
          sorted (set_difference (get_keys_for_language h "en" ns)
                                 (get_keys_for_language h "pl" ns))))
      namespaces.
Proof.
  unfold results_of, namespaces, diff_namespace. cbn [fold_left map].
  generalize (sorted (set_difference (get_keys_for_language h "en" "common")
                                     (get_keys_for_language h "pl" "common"))).
  generalize (sorted (set_difference (get_keys_for_language h "en" "entities")
                                     (get_keys_for_language h "pl" "entities"))).
  generalize (sorted (set_difference (get_keys_for_language h "en" "ui")
                                     (get_keys_for_language h "pl" "ui"))).
  reflexivity.
Qed.

Lemma results_of_get h ns :
  In ns namespaces ->
  dict_get (result_label ns) (results_of h namespaces) =
  Some (sorted (set_difference (get_keys_for_language h "en" ns)
                               (get_keys_for_language h "pl" ns))).
Proof.
  rewrite results_of_namespaces. unfold namespaces. cbn [map].
  intros [<-|[<-|[<-|[]]]];
    generalize (sorted (set_difference (get_keys_for_language h "en" "common")
                                       (get_keys_for_language h "pl" "common")));
    generalize (sorted (set_difference (get_keys_for_language h "en" "entities")
                                       (get_keys_for_language h "pl" "entities")));
    generalize (sorted (set_difference (get_keys_for_language h "en" "ui")
                                       (get_keys_for_language h "pl" "ui")));
    reflexivity.
Qed.

(** ** [sorted] sorts *)

(** The order in which a set hands out its elements does not matter to the
    report: [sorted] returns the ordered arrangement of what it is given. *)

Lemma insert_sorted_perm x l : Permutation (x :: l) (insert_sorted x l).
Proof.
  induction l as [|y tl IH]; simpl; [reflexivity|].
  destruct (String.leb x y); [reflexivity|].
  rewrite perm_swap. now constructor.
Qed.

Lemma sorted_perm l : Permutation l (sorted l).
Proof.
  induction l as [|x l IH]; simpl; [constructor|].
  rewrite <- insert_sorted_perm. now constructor.
Qed.

Lemma insert_sorted_ordered x l :
  Sorted str_le l -> Sorted str_le (insert_sorted x l).
Proof.
  induction l as [|y tl IH]; simpl; intros Hs.
  - repeat constructor.
  - destruct (String.leb x y) eqn:E.
    + constructor; [assumption|]. now constructor.
    + assert (Hyx : str_le y x).
      { destruct (String.leb_total x y) as [H|H]; [congruence|exact H]. }
      inversion Hs as [|y' tl' Htl Hhd]; subst.
      constructor; [now apply IH|].
      destruct tl as [|z tl]; simpl; [now constructor|].
      destruct (String.leb x z); constructor; [assumption|].
      now inversion Hhd.
Qed.

Lemma sorted_ordered l : Sorted str_le (sorted l).
Proof.
  induction l as [|x l IH]; simpl; [constructor|].
  now apply insert_sorted_ordered.
Qed.

(** ** Paths in two parts *)

Lemma reaches_app x p q y :
  reaches x (p ++ q) y <-> exists m, reaches x p m /\ reaches m q y.
Proof.
  revert x. induction p as [|k p IH]; intros x; simpl.
  - split.
    + intros H. exists x. split; [constructor|assumption].
    + intros (m & Hm & H). inversion Hm; subst. assumption.
  - split.
    + inversion 1 as [|items k' child rest y' Hget Hr]; subst.
      apply IH in Hr as (m & Hm & Hq). exists m. split; [|assumption].
      econstructor; eassumption.
    + intros (m & Hm & Hq).
      inversion Hm as [|items k' child rest y' Hget Hr]; subst.
      econstructor; [eassumption|]. apply IH. eauto.
Qed.

(** ** Independent keys and string prefixes *)

Lemma string_prefix_append a t : String.prefix a (a ++ t) = true.
Proof.
  induction a as [|c a IH]; simpl; [now destruct t|].
  destruct (ascii_dec c c); [assumption|congruence].
Qed.

Lemma string_prefix_refl a : String.prefix a a = true.
Proof.
  induction a as [|c a IH]; simpl; [reflexivity|].
  destruct (ascii_dec c c); [assumption|congruence].
Qed.

Lemma string_prefix_append_same a x y :
  String.prefix (a ++ x) (a ++ y) = String.prefix x y.
Proof.
  induction a as [|c a IH]; simpl; [reflexivity|].
  destruct (ascii_dec c c); [assumption|congruence].
Qed.

Lemma is_prefix_app p q : is_prefix p q = true -> exists r, q = p ++ r.
Proof.
  revert q. induction p as [|a p IH]; intros q; simpl.
  - eauto.
  - destruct q as [|b q]; [discriminate|].
    intros H. apply andb_true_iff in H as [Hab Hp].
    apply String.eqb_eq in Hab as ->. destruct (IH q Hp) as [r ->]. eauto.
Qed.

Lemma concat_prefix p r :
  p <> [] ->
  String.prefix (String.concat "." p) (String.concat "." (p ++ r)) = true.
Proof.
  induction p as [|a p IH]; intros Hne; [congruence|].
  destruct p as [|b p].
  - destruct r as [|c r]; simpl.
    + apply string_prefix_refl.
    + apply string_prefix_append.
  - change (String.concat "." (a :: b :: p))
      with (a ++ "." ++ String.concat "." (b :: p))%string.
    change (String.concat "." ((a :: b :: p) ++ r))
      with (a ++ "." ++ String.concat "." ((b :: p) ++ r))%string.
    rewrite !string_prefix_append_same. apply IH. discriminate.
Qed.

(** A key whose segments begin another key's segments is a prefix of it
    as a string: keys of which neither is a string prefix of the other are
    independent. *)
Lemma segments_prefix_string_prefix k1 k2 :
  is_prefix (str_split dot k1) (str_split dot k2) = true ->
  String.prefix k1 k2 = true.
Proof.
  intros H. apply is_prefix_app in H as [r Hr].
  rewrite <- (str_join_split k1), <- (str_join_split k2), Hr.
  apply concat_prefix, str_split_nonempty.
Qed.

Lemma not_string_prefix_independent k1 k2 :
  String.prefix k1 k2 = false -> String.prefix k2 k1 = false ->
  independent k1 k2.
Proof.
  intros H12 H21. split.
  - destruct (is_prefix (str_split dot k1) (str_split dot k2)) eqn:E; [|reflexivity].
    apply segments_prefix_string_prefix in E. congruence.
  - destruct (is_prefix (str_split dot k2) (str_split dot k1)) eqn:E; [|reflexivity].
    apply segments_prefix_string_prefix in E. congruence.
Qed.

(* ================================================================== *)
(** * Main results *)

(** C1 (round trip of addressing).  For every localization tree, every
    dotted key and every string [v]: [set_nested_value] succeeds on the
    tree, and [get_value_from_nested_dict] on the updated tree with the same
    key returns [v]. *)
Theorem get_after_set_roundtrip : forall items key v,
  exists updated,
    set_nested_value (JDict items) key (JStr v) = Some updated /\
    get_value_from_nested_dict updated key = Some (JStr v).
Proof.
  intros items key v. eexists. split; [apply set_nested_value_policy|].
  apply get_value_spec. split; [|reflexivity].
  apply set_by_policy_reaches, str_split_nonempty.
Qed.

(** C3 (contract of get).  On every value and every dotted key
    [get_value_from_nested_dict] is defined; whatever it returns is a
    string, never a sub-tree; it returns the leaf when the segments lead to
    a string, and the not-found signal when they lead to a mapping (or to
    any other non-string) or lead nowhere, which is the case when a segment
    is missing from the mapping reached so far or when the node reached
    before a segment is not a mapping. *)
Theorem get_contract : forall data key,
  (forall r, get_value_from_nested_dict data key = Some r ->
             exists s, r = JStr s /\ reaches data (str_split dot key) (JStr s)) /\
  (forall s, reaches data (str_split dot key) (JStr s) ->
             get_value_from_nested_dict data key = Some (JStr s)) /\
  (forall sub, reaches data (str_split dot key) (JDict sub) ->
               get_value_from_nested_dict data key = None) /\
  (forall node, reaches data (str_split dot key) node ->
                isinstance_str node = false ->
                get_value_from_nested_dict data key = None) /\
  ((forall node, ~ reaches data (str_split dot key) node) ->
   get_value_from_nested_dict data key = None) /\
  (forall before k rest items,
     str_split dot key = before ++ k :: rest ->
     reaches data before (JDict items) ->
     dict_get k items = None ->
     get_value_from_nested_dict data key = None) /\
  (forall before k rest node,
     str_split dot key = before ++ k :: rest ->
     reaches data before node ->
     isinstance_dict node = false ->
     get_value_from_nested_dict data key = None).
Proof.
  intros data key.
  assert (Hnot : forall node, reaches data (str_split dot key) node ->
                              isinstance_str node = false ->
                              get_value_from_nested_dict data key = None).
  { intros node Hr Hs.
    destruct (get_value_from_nested_dict data key) as [r|] eqn:E; [|reflexivity].
    apply get_value_spec in E as [Hr' Hs'].
    rewrite (reaches_functional Hr Hr') in Hs. congruence. }
  assert (Hnone : (forall node, ~ reaches data (str_split dot key) node) ->
                  get_value_from_nested_dict data key = None).
  { intros Hnone.
    destruct (get_value_from_nested_dict data key) as [r|] eqn:E; [|reflexivity].
    apply get_value_spec in E as [Hr _]. now apply Hnone in Hr. }
  split; [|split; [|split; [|split; [|split; [|split]]]]].
  - intros r E. apply get_value_spec in E as [Hr Hs].
    destruct r; try discriminate. eauto.
  - intros s Hr. apply get_value_spec. auto.
  - intros sub Hr. now apply (Hnot (JDict sub)).
  - exact Hnot.
  - exact Hnone.
  - intros before k rest items Hkey Hb Hmiss. apply Hnone.
    intros node Hr. rewrite Hkey in Hr. apply reaches_app in Hr as (m & Hm & Hq).
    rewrite (reaches_functional Hm Hb) in Hq.
    inversion Hq; subst. congruence.
  - intros before k rest node Hkey Hb Hnd. apply Hnone.
    intros y Hr. rewrite Hkey in Hr. apply reaches_app in Hr as (m & Hm & Hq).
    rewrite (reaches_functional Hm Hb) in Hq.
    inversion Hq; subst. discriminate.
Qed.

(** C4 (overwrite policy of set).  On a mapping the loop of
    [set_nested_value] computes exactly the policy [set_by_policy] along
    the segments of the key: the value is found at the end of the path; a
    single last segment is assigned the value, whatever was there; an
    intermediate segment that is absent or holds a non-mapping gets a
    fresh mapping that holds the rest of the path only (the old value is
    gone); an intermediate segment that holds a mapping keeps it, updated
    along the rest. *)
Theorem set_overwrite_policy : forall items key value,
  set_nested_value (JDict items) key value =
    Some (JDict (set_by_policy items (str_split dot key) value)) /\
  reaches (JDict (set_by_policy items (str_split dot key) value))
          (str_split dot key) value /\
  (forall tree k, set_by_policy tree [k] value = dict_set tree k value) /\
  (forall tree k rest,
     rest <> [] ->
     (dict_get k tree = None \/
      exists old, dict_get k tree = Some old /\ isinstance_dict old = false) ->
     set_by_policy tree (k :: rest) value =
       dict_set tree k (JDict (set_by_policy [] rest value))) /\
  (forall tree k rest sub,
     rest <> [] ->
     dict_get k tree = Some (JDict sub) ->
     set_by_policy tree (k :: rest) value =
       dict_set tree k (JDict (set_by_policy sub rest value))).
Proof.
  intros items key value. repeat split.
  - apply set_nested_value_policy.
  - apply set_by_policy_reaches, str_split_nonempty.
  - intros tree k rest Hne Hold. rewrite set_by_policy_cons.
    destruct rest; [congruence|]. unfold entry_value, child_of.
    destruct Hold as [->|(old & -> & Hold)]; [reflexivity|].
    destruct old; try reflexivity; discriminate.
  - intros tree k rest sub Hne Hsub. rewrite set_by_policy_cons.
    destruct rest; [congruence|]. unfold entry_value, child_of. now rewrite Hsub.
Qed.

(** C8 (frame property of patching).  [set_nested_value] on a mapping
    changes nothing off the path of its key: along every path that parts
    from the key's segments (neither an initial part of them nor an
    extension of them) the same node is reached before and after, so every
    dotted key independent of the patched one reads the same; and the
    patch [{a.b: new}] on [{a: {b: old, d: keep}}] gives
    [{a: {b: new, d: keep}}]. *)
Theorem set_frame : forall items key value,
  exists updated,
    set_nested_value (JDict items) key value = Some updated /\
    (forall q node,
       is_prefix q (str_split dot key) = false ->
       is_prefix (str_split dot key) q = false ->
       (reaches updated q node <-> reaches (JDict items) q node)) /\
    (forall other,
       independent other key ->
       get_value_from_nested_dict updated other =
       get_value_from_nested_dict (JDict items) other) /\
    apply_patches (JDict [("a", JDict [("b", JStr "old"); ("d", JStr "keep")])])
                  [("a.b", "new")]
    = Some (JDict [("a", JDict [("b", JStr "new"); ("d", JStr "keep")])]).
Proof.
  intros items key value. eexists. split; [apply set_nested_value_policy|].
  split; [|split; [|reflexivity]].
  - intros q node Hq Hk. rewrite <- !get_loop_reaches.
    now rewrite set_by_policy_frame.
  - intros other [H1 H2]. unfold get_value_from_nested_dict.
    now rewrite set_by_policy_frame.
Qed.

(** C10 (the empty dotted key).  Splitting the empty key gives the single
    empty segment; [get_value_from_nested_dict] with it returns the entry
    of the root under the empty key when that entry is a string and
    the not-found signal otherwise; [set_nested_value] with it assigns the value to the
    empty key of the root. *)
Theorem empty_key_behaviour : forall data items value,
  str_split dot "" = [""%string] /\
  get_value_from_nested_dict data "" =
    match data with
    | JDict root =>
        match dict_get "" root with
        | Some (JStr s) => Some (JStr s)
        | _ => None
        end
    | _ => None
    end /\
  set_nested_value (JDict items) "" value = Some (JDict (dict_set items "" value)).
Proof.
  intros data items value. repeat split.
  unfold get_value_from_nested_dict. simpl. destruct data; try reflexivity.
  unfold dict_mem. destruct (dict_get "" items0) as [[]|]; reflexivity.
Qed.

(** C9, as stated, fails: two patches on independent keys that both add a
    new key to the same mapping leave the keys in the order of
    application, so the two orders give different ordered trees. *)
Lemma patch_order_shows_in_key_order :
  independent "a" "b" /\
  set_twice (JDict []) "a" (JStr "1") "b" (JStr "2")
    = Some (JDict [("a", JStr "1"); ("b", JStr "2")]) /\
  set_twice (JDict []) "b" (JStr "2") "a" (JStr "1")
    = Some (JDict [("b", JStr "2"); ("a", JStr "1")]) /\
  set_twice (JDict []) "a" (JStr "1") "b" (JStr "2")
    <> set_twice (JDict []) "b" (JStr "2") "a" (JStr "1").
Proof. repeat split; discriminate. Qed.

(** C9 (amended).  For every tree and two patch entries whose dotted keys
    address independent paths, both orders of application succeed and give
    the same mapping: the same keys with the same values at every level
    (the order of keys apart), so that every dotted key reads the same in
    both results.  Independence is on segments; by
    [not_string_prefix_independent] it holds whenever neither key is a
    prefix of the other as a string. *)
Theorem patch_order_same_mapping : forall items k1 v1 k2 v2,
  independent k1 k2 ->
  exists t12 t21,
    set_twice (JDict items) k1 v1 k2 v2 = Some t12 /\
    set_twice (JDict items) k2 v2 k1 v1 = Some t21 /\
    same_mapping t12 t21 /\
    (forall key, get_value_from_nested_dict t12 key =
                 get_value_from_nested_dict t21 key).
Proof.
  intros items k1 v1 k2 v2 [H12 H21]. unfold set_twice.
  rewrite !set_nested_value_policy. do 2 eexists.
  split; [reflexivity|]. split; [reflexivity|].
  assert (Hsame := set_by_policy_commute _ _ items v1 v2 H12 H21).
  split; [exact Hsame|]. intros key. now apply same_mapping_get.
Qed.

Lemma patch_order_same_mapping_witness :
  independent "a.b" "a.c" /\
  exists t12 t21,
    set_twice (JDict [("a", JStr "leaf")]) "a.b" (JStr "1") "a.c" (JStr "2") = Some t12 /\
    set_twice (JDict [("a", JStr "leaf")]) "a.c" (JStr "2") "a.b" (JStr "1") = Some t21 /\
    same_mapping t12 t21 /\
    (forall key, get_value_from_nested_dict t12 key =
                 get_value_from_nested_dict t21 key).
Proof.
  assert (H : independent "a.b" "a.c") by (split; reflexivity).
  split; [exact H|].
  exact (patch_order_same_mapping [("a", JStr "leaf")] (JStr "1") (JStr "2") H).
Defined.

(** C2, as stated, fails on a tree with a key that contains the
    separator: the flattener emits the key, the lookup splits it. *)
Lemma flatten_key_with_dot_not_found :
  In "a.b"%string (extract_keys_recursive (JDict [("a.b", JStr "x")]) "") /\
  get_value_from_nested_dict (JDict [("a.b", JStr "x")]) "a.b" = None.
Proof. split; [now left|reflexivity]. Qed.

(** C2 (amended).  For every tree whose mappings have one entry per key,
    whose keys contain no separator and whose root has no empty key that
    holds a mapping, every
    dotted key of the flattening is found by
    [get_value_from_nested_dict], which returns the string leaf that the
    key's segments lead to. *)
Theorem flatten_sound_for_get : forall tree k,
  uniq_keys tree = true ->
  dot_free_keys tree = true ->
  no_empty_root_mapping tree = true ->
  In k (extract_keys_recursive tree "") ->
  exists s,
    get_value_from_nested_dict tree k = Some (JStr s) /\
    reaches tree (str_split dot k) (JStr s).
Proof.
  intros tree k Hu Hd Hn Hin.
  destruct (extract_keys_sound tree k Hu Hd Hn Hin) as [s Hr].
  exists s. split; [|assumption]. apply get_value_spec. auto.
Qed.

Lemma flatten_sound_for_get_witness :
  uniq_keys sample_tree = true /\
  dot_free_keys sample_tree = true /\
  no_empty_root_mapping sample_tree = true /\
  In "x.y"%string (extract_keys_recursive sample_tree "") /\
  exists s,
    get_value_from_nested_dict sample_tree "x.y" = Some (JStr s) /\
    reaches sample_tree (str_split dot "x.y") (JStr s).
Proof.
  assert (Hin : In "x.y"%string (extract_keys_recursive sample_tree ""))
    by now left.
  repeat (split; [reflexivity|]). split; [exact Hin|].
  exact (flatten_sound_for_get sample_tree "x.y" eq_refl eq_refl eq_refl Hin).
Defined.

(** C5, as stated, fails in both directions.  With a key that contains the
    separator, the emitted path does not lead to a leaf when it is followed
    segment by segment; with an empty key at the root, the path that leads
    to the leaf is not the one emitted. *)
Lemma flatten_not_exactly_the_leaf_paths :
  (In "x.y"%string (extract_keys_recursive (JDict [("x.y", JStr "v")]) "") /\
   forall node, ~ reaches (JDict [("x.y", JStr "v")]) (str_split dot "x.y") node) /\
  (reaches (JDict [("", JDict [("a", JStr "v")])]) (str_split dot ".a") (JStr "v") /\
   ~ In ".a"%string (extract_keys_recursive (JDict [("", JDict [("a", JStr "v")])]) "")).
Proof.
  split; split.
  - now left.
  - intros node H. apply get_loop_reaches in H. discriminate.
  - apply get_loop_reaches. reflexivity.
  - simpl. intros [H|[]]. discriminate.
Qed.

(** C5 (amended).  For every tree whose mappings have one entry per key,
    whose keys contain no separator and whose root has no empty key that
    holds a mapping: a
    dotted path is in the flattening if and only if following its segments
    reaches a string leaf; a path that reaches anything else is not in it;
    and an entry whose value is neither a mapping nor a string adds nothing
    to the result (there is no error to report: the result is the list of
    keys alone). *)
Theorem flatten_exactly_string_leaves : forall tree,
  uniq_keys tree = true ->
  dot_free_keys tree = true ->
  no_empty_root_mapping tree = true ->
  (forall k, In k (extract_keys_recursive tree "") <->
             exists s, reaches tree (str_split dot k) (JStr s)) /\
  (forall k node, reaches tree (str_split dot k) node ->
                  isinstance_str node = false ->
                  ~ In k (extract_keys_recursive tree "")) /\
  (forall prefix key value,
     isinstance_dict value = false -> isinstance_str value = false ->
     entry_keys prefix (key, value) = []).
Proof.
  intros tree Hu Hd Hn.
  assert (Hiff : forall k, In k (extract_keys_recursive tree "") <->
                           exists s, reaches tree (str_split dot k) (JStr s)).
  { intros k. split.
    - now apply extract_keys_sound.
    - intros [s Hr]. now apply extract_keys_complete with s. }
  split; [exact Hiff|]. split.
  - intros k node Hr Hs Hin. apply Hiff in Hin as [s Hr'].
    rewrite (reaches_functional Hr Hr') in Hs. discriminate.
  - intros prefix key value Hdict Hstr.
    destruct value; try discriminate; reflexivity.
Qed.

Lemma flatten_exactly_string_leaves_witness :
  uniq_keys sample_tree_with_list = true /\
  dot_free_keys sample_tree_with_list = true /\
  no_empty_root_mapping sample_tree_with_list = true /\
  extract_keys_recursive sample_tree_with_list "" = ["x.y"; "z"]%string /\
  (forall k, In k (extract_keys_recursive sample_tree_with_list "") <->
             exists s, reaches sample_tree_with_list (str_split dot k) (JStr s)).
Proof.
  repeat (split; [reflexivity|]).
  exact (proj1 (flatten_exactly_string_leaves sample_tree_with_list
                  eq_refl eq_refl eq_refl)).
Defined.

(** C6 (the differ degrades load failures to empty sets).  When loading
    the file of a language and namespace fails (file not found, empty
    file, malformed JSON, any other exception), [get_keys_for_language]
    returns the empty set; the run still yields one result per namespace,
    in order; a namespace whose target file fails gets all the reference
    keys, sorted, and one whose reference file fails gets none; with the
    reference [{a: x}] for one namespace and every other file missing, the
    printed report lists [a] as missing there and nothing elsewhere. *)
Theorem differ_degrades_to_empty : forall h,
  (forall lang ns,
     load_fails h (locale_file_path lang ns) ->
     get_keys_for_language h lang ns = []) /\
  dict_keys (results_of h namespaces) = map result_label namespaces /\
  (forall ns,
     In ns namespaces ->
     load_fails h (locale_file_path "pl" ns) ->
     dict_get (result_label ns) (results_of h namespaces) =
       Some (sorted (get_keys_for_language h "en" ns))) /\
  (forall ns,
     In ns namespaces ->
     load_fails h (locale_file_path "en" ns) ->
     dict_get (result_label ns) (results_of h namespaces) = Some []) /\
  ExtractKeys.main host_en_common_only =
    [ ("missing_pl_common_keys: [" ++ dquote ++ "a" ++ dquote ++ "]")%string;
      "missing_pl_entities_keys: []"%string;
      "missing_pl_ui_keys: []"%string ].
Proof.
  intros h. split; [|split; [|split; [|split]]].
  - intros lang ns. apply get_keys_failed.
  - rewrite results_of_namespaces. unfold dict_keys. rewrite map_map. reflexivity.
  - intros ns Hin Hfail. rewrite (@results_of_get h ns Hin).
    now rewrite (@get_keys_failed h "pl" ns Hfail), set_difference_nil_r.
  - intros ns Hin Hfail. rewrite (@results_of_get h ns Hin).
    now rewrite (@get_keys_failed h "en" ns Hfail).
  - reflexivity.
Qed.

(** C7 (the extractor is total per key, and empty on a load failure).
    The loop over the requested keys leaves exactly one entry per
    requested key, whose value is a string: the value found by
    [get_value_from_nested_dict], or the diagnostic string when the lookup
    fails.  When the file loads, [main] prints that mapping for the fixed
    list of keys, in the order of the list; when loading fails (missing,
    empty, malformed, any other exception), it prints the empty mapping. *)
Theorem extractor_total_or_empty :
  (forall data keys,
     NoDup (dict_keys (collect data keys)) /\
     (forall k, In k (dict_keys (collect data keys)) <-> In k keys) /\
     (forall k, In k keys ->
        exists s, dict_get k (collect data keys) = Some (JStr s) /\
          (get_value_from_nested_dict data k = Some (JStr s) \/
           (get_value_from_nested_dict data k = None /\ s = error_value k)))) /\
  (forall h data,
     loads h ui_en_file_path data ->
     FetchEnValues.main h = collect data target_keys /\
     dict_keys (FetchEnValues.main h) = target_keys) /\
  (forall h, load_fails h ui_en_file_path -> FetchEnValues.main h = []) /\
  collect (JDict [("x", JDict [("y", JStr "v")])]) ["x.y"; "z"]%string =
    [ ("x.y"%string, JStr "v");
      ("z"%string, JStr "ERROR: Value for key 'z' not found or not a string.") ].
Proof.
  split; [|split; [|split]].
  - intros data keys. unfold collect.
    destruct (@fold_record_keys data keys [] ) as [Hnd Hin];
      [constructor|].
    split; [assumption|]. split.
    + intros k. rewrite Hin. simpl. tauto.
    + intros k Hk. rewrite fold_record_get_in by assumption.
      destruct (entry_for_cases data k) as (s & -> & Hs). eauto.
  - intros h data Hl. rewrite (@fetch_main_loaded h data Hl). split; [reflexivity|].
    unfold collect. rewrite fold_record_order; [reflexivity| |tauto].
    apply distinct_NoDup. reflexivity.
  - intros h. apply fetch_main_failed.
  - reflexivity.
Qed.

(* ================================================================== *)
(** * Further properties of the scripts *)

(** ** The patch loop *)

Lemma independentb_spec k1 k2 : independentb k1 k2 = true <-> independent k1 k2.
Proof.
  unfold independentb, independent.
  rewrite andb_true_iff, !negb_true_iff. tauto.
Qed.

Lemma independent_sym k1 k2 : independent k1 k2 -> independent k2 k1.
Proof. unfold independent. tauto. Qed.

Lemma apply_patches_policy patches : forall items,
  apply_patches (JDict items) patches = Some (JDict (patch_all items patches)).
Proof.
  induction patches as [|[k v] rest IH]; intros items; [reflexivity|].
  cbn [apply_patches]. rewrite set_nested_value_policy. apply IH.
Qed.

Lemma apply_patches_not_mapping data patches :
  isinstance_dict data = false -> patches <> [] ->
  apply_patches data patches = None.
Proof.
  intros Hd Hp. destruct patches as [|[k v] rest]; [congruence|].
  destruct data; try discriminate; reflexivity.
Qed.

Lemma patch_all_frame patches : forall items other,
  (forall k, In k (map fst patches) -> independent other k) ->
  get_loop (JDict (patch_all items patches)) (str_split dot other) =
  get_loop (JDict items) (str_split dot other).
Proof.
  induction patches as [|[k v] rest IH]; intros items other Hind; [reflexivity|].
  unfold patch_all in *. cbn [fold_left fst snd].
  rewrite IH by (intros k' Hk'; apply Hind; now right).
  destruct (Hind k) as [H1 H2]; [now left|].
  now apply set_by_policy_frame.
Qed.

Lemma patch_all_readable patches : forall items k v,
  pairwise_independent (map fst patches) = true ->
  In (k, v) patches ->
  get_loop (JDict (patch_all items patches)) (str_split dot k) = Some (JStr v).
Proof.
  induction patches as [|[k0 v0] rest IH]; intros items k v Hpw Hin; [contradiction|].
  cbn [map fst pairwise_independent] in Hpw.
  apply andb_true_iff in Hpw as [Hk0 Hrest].
  destruct Hin as [Heq|Hin].
  - injection Heq as -> ->.
    change (patch_all items ((k, v) :: rest))
      with (patch_all (set_by_policy items (str_split dot k) (JStr v)) rest).
    rewrite patch_all_frame.
    + apply get_loop_reaches, set_by_policy_reaches, str_split_nonempty.
    + intros k' Hk'. rewrite forallb_forall in Hk0.
      now apply independentb_spec, Hk0.
  - now apply (IH _ k v).
Qed.



(** X2.  The patch loop changes no reading off its paths: a dotted key
    that is independent of every patch key reads the same in the patched
    tree as in the tree before. *)
Theorem apply_patches_frame : forall items patches other,
  (forall k, In k (map fst patches) -> independent other k) ->
  exists updated,
    apply_patches (JDict items) patches = Some updated /\
    get_value_from_nested_dict updated other =
    get_value_from_nested_dict (JDict items) other.
Proof.
  intros items patches other Hind. eexists.
  split; [apply apply_patches_policy|].
  unfold get_value_from_nested_dict. now rewrite patch_all_frame.
Qed.

Lemma apply_patches_frame_witness :
  (forall k, In k (map fst [("a.b", "1"); ("a.c", "2")]%string) -> independent "a.keep" k) /\
  exists updated,
    apply_patches (JDict [("a", JDict [("keep", JStr "kept")])])
                  [("a.b", "1"); ("a.c", "2")]%string = Some updated /\
    get_value_from_nested_dict updated "a.keep" =
    get_value_from_nested_dict (JDict [("a", JDict [("keep", JStr "kept")])]) "a.keep".
Proof.
  assert (H : forall k, In k (map fst [("a.b", "1"); ("a.c", "2")]%string) ->
                        independent "a.keep" k).
  { intros k [<-|[<-|[]]]; split; reflexivity. }
  split; [exact H|].
  exact (@apply_patches_frame [("a", JDict [("keep", JStr "kept")])]
           [("a.b", "1"); ("a.c", "2")]%string "a.keep" H).
Defined.

(** ** Patching twice *)

Lemma dict_set_same_value (V : Type) (d : list (string * V)) k x :
  dict_get k d = Some x -> dict_set d k x = d.
Proof.
  induction d as [|[k' v'] tl IH]; simpl; [discriminate|].
  destruct (String.eqb k k').
  - now intros [= ->].
  - intros H. now rewrite IH.
Qed.

Lemma set_by_policy_idem segs : forall tree value,
  set_by_policy (set_by_policy tree segs value) segs value =
  set_by_policy tree segs value.
Proof.
  induction segs as [|k rest IH]; intros tree value; [reflexivity|].
  rewrite (set_by_policy_cons tree), set_by_policy_cons, dict_set_twice.
  f_equal. destruct rest as [|k2 rest']; [reflexivity|].
  unfold entry_value. now rewrite child_of_set_same, IH.
Qed.

Lemma set_by_policy_fixed segs : forall tree value,
  segs <> [] ->
  reaches (JDict tree) segs value ->
  set_by_policy tree segs value = tree.
Proof.
  induction segs as [|k rest IH]; intros tree value Hne Hr; [congruence|].
  inversion Hr as [|items k' child rest' y Hget Hr']; subst.
  rewrite set_by_policy_cons. destruct rest as [|k2 rest'].
  - inversion Hr'; subst. now apply dict_set_same_value.
  - destruct (reaches_from_dict Hr') as [sub ->]; [discriminate|].
    unfold entry_value, child_of. rewrite Hget.
    rewrite IH by (discriminate || assumption).
    now apply dict_set_same_value.
Qed.

Lemma patch_all_fixed patches : forall tree,
  (forall k v, In (k, v) patches ->
               reaches (JDict tree) (str_split dot k) (JStr v)) ->
  patch_all tree patches = tree.
Proof.
  induction patches as [|[k v] rest IH]; intros tree Hall; [reflexivity|].
  unfold patch_all in *. cbn [fold_left fst snd].
  rewrite set_by_policy_fixed.
  - apply IH. intros k' v' Hin. apply Hall. now right.
  - apply str_split_nonempty.
  - apply Hall. now left.
Qed.

(** X3.  Patching is idempotent: the same call of [set_nested_value] made
    twice in a row leaves the tree the first call left, key order
    included. *)
Theorem set_nested_value_idempotent : forall items key value,
  set_twice (JDict items) key value key value =
  set_nested_value (JDict items) key value.
Proof.
  intros items key value. unfold set_twice.
  rewrite !set_nested_value_policy. now rewrite set_by_policy_idem.
Qed.

(** X4.  A second run of the patch loop changes nothing: when the patch
    keys address pairwise independent paths, applying the patches to the
    tree they produced gives that tree again. *)
Theorem apply_patches_second_run : forall items patches,
  pairwise_independent (map fst patches) = true ->
  exists updated,
    apply_patches (JDict items) patches = Some updated /\
    apply_patches updated patches = Some updated.
Proof.
  intros items patches Hpw. eexists. split; [apply apply_patches_policy|].
  rewrite apply_patches_policy. do 2 f_equal.
  apply patch_all_fixed. intros k v Hin.
  apply get_loop_reaches. now apply patch_all_readable.
Qed.

Lemma apply_patches_second_run_witness :
  pairwise_independent (map fst [("a.b", "1"); ("c", "2")]%string) = true /\
  exists updated,
    apply_patches (JDict [("c", JDict [])]) [("a.b", "1"); ("c", "2")]%string
      = Some updated /\
    apply_patches updated [("a.b", "1"); ("c", "2")]%string = Some updated.
Proof.
  split; [reflexivity|].
  exact (@apply_patches_second_run [("c", JDict [])]
           [("a.b", "1"); ("c", "2")]%string eq_refl).
Defined.

(** ** What patching keeps *)

Lemma in_dict_set (V : Type) (d : list (string * V)) k v kv :
  In kv (dict_set d k v) -> kv = (k, v) \/ In kv d.
Proof.
  induction d as [|[k' v'] tl IH]; simpl.
  - intros [<-|[]]. now left.
  - destruct (String.eqb_spec k k') as [->|Hne]; simpl.
    + intros [<-|H]; auto.
    + intros [<-|H]; auto. destruct (IH H); auto.
Qed.

Lemma NoDup_distinct l : NoDup l -> distinct l = true.
Proof.
  induction 1 as [|a l Ha Hl IH]; simpl; [reflexivity|].
  rewrite IH, andb_true_r. apply negb_true_iff.
  destruct (existsb (String.eqb a) l) eqn:E; [|reflexivity].
  apply existsb_exists in E as (x & Hx & Heq).
  apply String.eqb_eq in Heq. subst x. contradiction.
Qed.

Lemma uniq_keys_dict items :
  uniq_keys (JDict items) = true <->
  distinct (map fst items) = true /\
  forall k v, In (k, v) items -> uniq_keys v = true.
Proof.
  cbn [uniq_keys]. rewrite andb_true_iff, forallb_forall. split.
  - intros [Hd Hall]. split; [assumption|]. intros k v Hin. apply (Hall (k, v) Hin).
  - intros [Hd Hall]. split; [assumption|]. intros [k v] Hin. now apply (Hall k v).
Qed.

Lemma uniq_keys_dict_set items k x :
  uniq_keys (JDict items) = true -> uniq_keys x = true ->
  uniq_keys (JDict (dict_set items k x)) = true.
Proof.
  rewrite !uniq_keys_dict. intros [Hd Hall] Hx. split.
  - apply NoDup_distinct. apply (@NoDup_dict_keys_set json).
    now apply distinct_NoDup.
  - intros k' v' Hin. apply in_dict_set in Hin as [[= -> ->]|Hin]; eauto.
Qed.

Lemma uniq_keys_child_of tree k :
  uniq_keys (JDict tree) = true -> uniq_keys (JDict (child_of tree k)) = true.
Proof.
  intros Hu. unfold child_of.
  destruct (dict_get k tree) as [[]|] eqn:E; try reflexivity.
  apply dict_get_In in E. now apply (uniq_keys_entry _ _ _ Hu E).
Qed.

Lemma uniq_keys_set_by_policy segs : forall tree value,
  uniq_keys (JDict tree) = true -> uniq_keys value = true ->
  uniq_keys (JDict (set_by_policy tree segs value)) = true.
Proof.
  induction segs as [|k rest IH]; intros tree value Ht Hv; [assumption|].
  rewrite set_by_policy_cons. apply uniq_keys_dict_set; [assumption|].
  destruct rest as [|k2 rest']; [assumption|].
  unfold entry_value. apply IH; [|assumption]. now apply uniq_keys_child_of.
Qed.

(** X5.  Patching keeps the shape of a tree of dictionaries: when every
    mapping of the tree and of the value has one entry per key, so has
    every mapping of the patched tree (a key is replaced where it stands or
    added once, never repeated). *)
Theorem set_keeps_unique_keys : forall items key value,
  uniq_keys (JDict items) = true ->
  uniq_keys value = true ->
  exists updated,
    set_nested_value (JDict items) key value = Some updated /\
    uniq_keys updated = true.
Proof.
  intros items key value Ht Hv. eexists.
  split; [apply set_nested_value_policy|]. now apply uniq_keys_set_by_policy.
Qed.

Lemma set_keeps_unique_keys_witness :
  uniq_keys sample_tree = true /\
  uniq_keys (JStr "new") = true /\
  exists updated,
    set_nested_value sample_tree "x.y.deep" (JStr "new") = Some updated /\
    uniq_keys updated = true.
Proof.
  split; [reflexivity|]. split; [reflexivity|].
  exact (@set_keeps_unique_keys
           [("x", JDict [("y", JStr "v"); ("n", JNum "3")]); ("z", JStr "w")]
           "x.y.deep" (JStr "new") eq_refl eq_refl).
Defined.

Lemma str_split_segments_dot_free s :
  Forall (fun seg => has_char dot seg = false) (str_split dot s).
Proof.
  induction s as [|c s IH]; simpl.
  - now repeat constructor.
  - destruct (Ascii.eqb c dot) eqn:E.
    + now constructor.
    + destruct (str_split dot s) as [|h t]; [now repeat constructor; simpl; rewrite E|].
      inversion IH; subst. constructor; [|assumption].
      simpl. now rewrite E.
Qed.

Lemma dot_free_keys_dict items :
  dot_free_keys (JDict items) = true <->
  forall k v, In (k, v) items -> has_char dot k = false /\ dot_free_keys v = true.
Proof.
  cbn [dot_free_keys]. rewrite forallb_forall. split.
  - intros Hall k v Hin. specialize (Hall (k, v) Hin). cbn in Hall.
    apply andb_true_iff in Hall as [Hk Hv]. now apply negb_true_iff in Hk.
  - intros Hall [k v] Hin. destruct (Hall k v Hin) as [Hk Hv].
    now rewrite Hk, Hv.
Qed.

Lemma dot_free_keys_child_of tree k :
  dot_free_keys (JDict tree) = true -> dot_free_keys (JDict (child_of tree k)) = true.
Proof.
  intros Hd. unfold child_of.
  destruct (dict_get k tree) as [[]|] eqn:E; try reflexivity.
  apply dict_get_In in E. now apply (dot_free_keys_entry _ _ _ Hd E).
Qed.

Lemma dot_free_keys_set_by_policy segs : forall tree value,
  Forall (fun seg => has_char dot seg = false) segs ->
  dot_free_keys (JDict tree) = true -> dot_free_keys value = true ->
  dot_free_keys (JDict (set_by_policy tree segs value)) = true.
Proof.
  induction segs as [|k rest IH]; intros tree value Hs Ht Hv; [assumption|].
  inversion Hs as [|k' rest' Hk Hrest]; subst.
  rewrite set_by_policy_cons. apply dot_free_keys_dict.
  intros k' v' Hin. apply in_dict_set in Hin as [[= -> ->]|Hin].
  - split; [assumption|]. destruct rest as [|k2 rest']; [assumption|].
    unfold entry_value. apply IH; auto. now apply dot_free_keys_child_of.
  - now apply (dot_free_keys_entry _ _ _ Ht Hin).
Qed.

(** X6.  Patching never creates a key that contains the separator: when no
    key of the tree or of the value contains a dot, no key of the patched
    tree does, whatever the dotted key is. *)
Theorem set_keeps_dot_free_keys : forall items key value,
  dot_free_keys (JDict items) = true ->
  dot_free_keys value = true ->
  exists updated,
    set_nested_value (JDict items) key value = Some updated /\
    dot_free_keys updated = true.
Proof.
  intros items key value Ht Hv. eexists.
  split; [apply set_nested_value_policy|].
  apply dot_free_keys_set_by_policy; auto. apply str_split_segments_dot_free.
Qed.

Lemma set_keeps_dot_free_keys_witness :
  dot_free_keys sample_tree = true /\
  dot_free_keys (JStr "new") = true /\
  exists updated,
    set_nested_value sample_tree "x..deep." (JStr "new") = Some updated /\
    dot_free_keys updated = true.
Proof.
  split; [reflexivity|]. split; [reflexivity|].
  exact (@set_keeps_dot_free_keys
           [("x", JDict [("y", JStr "v"); ("n", JNum "3")]); ("z", JStr "w")]
           "x..deep." (JStr "new") eq_refl eq_refl).
Defined.

(** ** The root mapping after a patch *)

(** X7.  A patch touches one entry of the root mapping: the first segment
    of the key.  The keys of the root keep their order, a first segment
    that was not a key of the root is added after them, and every other
    entry of the root is the one it was. *)
Theorem set_keeps_root_order : forall items key value,
  exists updated,
    set_nested_value (JDict items) key value = Some (JDict updated) /\
    dict_keys updated =
      (if dict_mem (hd "" (str_split dot key)) items
       then dict_keys items
       else dict_keys items ++ [hd "" (str_split dot key)]) /\
    (forall k, k <> hd "" (str_split dot key) ->
               dict_get k updated = dict_get k items).
Proof.
  intros items key value. eexists.
  split; [apply set_nested_value_policy|].
  destruct (str_split dot key) as [|k1 rest] eqn:E;
    [now apply str_split_nonempty in E|].
  cbn [hd]. rewrite set_by_policy_cons. split.
  - apply dict_keys_set.
  - intros k Hk. apply dict_get_set_other. congruence.
Qed.

(** ** Keys on the patched path *)

Lemma is_prefix_refl p : is_prefix p p = true.
Proof.
  induction p as [|a p IH]; simpl; [reflexivity|].
  now rewrite String.eqb_refl.
Qed.

Lemma strict_prefix_app p q :
  is_prefix p q = true -> is_prefix q p = false ->
  exists r, q = p ++ r /\ r <> [].
Proof.
  intros Hpq Hqp. destruct (is_prefix_app _ _ Hpq) as [r ->].
  exists r. split; [reflexivity|]. intros ->.
  rewrite app_nil_r, is_prefix_refl in Hqp. discriminate.
Qed.

Lemma set_by_policy_prefix_dict p : forall r tree value,
  p <> [] -> r <> [] ->
  exists d, reaches (JDict (set_by_policy tree (p ++ r) value)) p (JDict d).
Proof.
  induction p as [|k p IH]; intros r tree value Hp Hr; [congruence|].
  change ((k :: p) ++ r) with (k :: (p ++ r)). rewrite set_by_policy_cons.
  destruct p as [|k2 p'].
  - destruct r as [|r1 r']; [congruence|]. cbn [app entry_value].
    eexists. econstructor; [apply dict_get_set_same|constructor].
  - destruct (IH r (child_of tree k) value) as [d Hd]; [discriminate|assumption|].
    exists d. cbn [app entry_value] in *.
    econstructor; [apply dict_get_set_same|exact Hd].
Qed.

Lemma get_not_found_unless_str data key :
  (forall s, ~ reaches data (str_split dot key) (JStr s)) ->
  get_value_from_nested_dict data key = None.
Proof.
  intros Hno.
  destruct (get_value_from_nested_dict data key) as [r|] eqn:E; [|reflexivity].
  apply get_value_spec in E as [Hr Hs]. destruct r; try discriminate.
  now apply Hno in Hr.
Qed.

(** X8.  A patch with a string hides the keys on its own path: after
    [set_nested_value] with a string value, a dotted key whose segments
    are a strict initial part of the patched key's segments reads
    not-found (a mapping stands there now, whatever stood there before),
    and so does a key that extends the patched key (a string stands in
    its way). *)
Theorem set_hides_path_keys : forall items key v other,
  (is_prefix (str_split dot other) (str_split dot key) = true /\
   is_prefix (str_split dot key) (str_split dot other) = false) \/
  (is_prefix (str_split dot key) (str_split dot other) = true /\
   is_prefix (str_split dot other) (str_split dot key) = false) ->
  exists updated,
    set_nested_value (JDict items) key (JStr v) = Some updated /\
    get_value_from_nested_dict updated other = None.
Proof.
  intros items key v other Hrel. eexists.
  split; [apply set_nested_value_policy|].
  apply get_not_found_unless_str. intros s Hreach.
  destruct Hrel as [[H1 H2]|[H1 H2]].
  - destruct (strict_prefix_app _ _ H1 H2) as (r & Hr & Hne).
    destruct (set_by_policy_prefix_dict items (JStr v)
                (str_split_nonempty dot other) Hne) as [d Hd].
    rewrite <- Hr in Hd. pose proof (reaches_functional Hreach Hd). discriminate.
  - destruct (strict_prefix_app _ _ H1 H2) as (r & Hr & Hne).
    rewrite Hr in Hreach.
    apply reaches_app in Hreach as (m & Hm & Hq).
    assert (Hv : reaches (JDict (set_by_policy items (str_split dot key) (JStr v)))
                         (str_split dot key) (JStr v))
      by apply set_by_policy_reaches, str_split_nonempty.
    rewrite (reaches_functional Hm Hv) in Hq.
    destruct (reaches_from_dict Hq Hne) as [sub Hsub]. discriminate.
Qed.

Lemma set_hides_path_keys_witness :
  ((is_prefix (str_split dot "a") (str_split dot "a.b") = true /\
    is_prefix (str_split dot "a.b") (str_split dot "a") = false) \/
   (is_prefix (str_split dot "a.b") (str_split dot "a") = true /\
    is_prefix (str_split dot "a") (str_split dot "a.b") = false)) /\
  get_value_from_nested_dict (JDict [("a", JStr "old")]) "a" = Some (JStr "old") /\
  exists updated,
    set_nested_value (JDict [("a", JStr "old")]) "a.b" (JStr "new") = Some updated /\
    get_value_from_nested_dict updated "a" = None.
Proof.
  assert (H : (is_prefix (str_split dot "a") (str_split dot "a.b") = true /\
               is_prefix (str_split dot "a.b") (str_split dot "a") = false) \/
              (is_prefix (str_split dot "a.b") (str_split dot "a") = true /\
               is_prefix (str_split dot "a") (str_split dot "a.b") = false))
    by (left; split; reflexivity).
  split; [exact H|]. split; [reflexivity|].
  exact (@set_hides_path_keys [("a", JStr "old")] "a.b" "new" "a" H).
Defined.

(** ** From the patcher to the differ *)

Lemma no_empty_root_mapping_dict_set items k x :
  no_empty_root_mapping (JDict items) = true ->
  truthy k = true \/ isinstance_dict x = false ->
  no_empty_root_mapping (JDict (dict_set items k x)) = true.
Proof.
  cbn [no_empty_root_mapping]. rewrite !forallb_forall.
  intros Hall Hk [k' v'] Hin. apply in_dict_set in Hin as [[= -> ->]|Hin].
  - destruct Hk as [->| ->]; [reflexivity|apply orb_true_r].
  - apply (Hall _ Hin).
Qed.

Lemma first_segment_of_key key :
  String.prefix "." key = false ->
  str_split dot key = [""%string] \/
  exists k1 rest, str_split dot key = k1 :: rest /\ truthy k1 = true.
Proof.
  destruct key as [|c s]; [now left|].
  intros Hp. right. simpl in Hp. simpl.
  destruct (Ascii.eqb_spec c dot) as [->|Hne].
  - exfalso. unfold dot in Hp. destruct (ascii_dec "." "."); [|congruence].
    destruct s; discriminate.
  - destruct (str_split dot s) as [|h t]; eauto.
Qed.

(** X9.  What the patcher writes, the flattener finds: when the root
    mapping has no empty key that holds a mapping and the dotted key does
    not begin with a dot, the key patched with a string is among the keys
    of the flattened result, and the patched root still has no empty key
    that holds a mapping. *)
Theorem patched_key_is_flattened : forall items key v,
  no_empty_root_mapping (JDict items) = true ->
  String.prefix "." key = false ->
  exists updated,
    set_nested_value (JDict items) key (JStr v) = Some updated /\
    In key (extract_keys_recursive updated "") /\
    no_empty_root_mapping updated = true.
Proof.
  intros items key v Hroot Hkey. eexists.
  split; [apply set_nested_value_policy|].
  assert (Hroot' : no_empty_root_mapping
                     (JDict (set_by_policy items (str_split dot key) (JStr v))) = true).
  { destruct (first_segment_of_key key Hkey) as [->|(k1 & rest & -> & Hk1)].
    - cbn [set_by_policy]. apply no_empty_root_mapping_dict_set; auto.
    - rewrite set_by_policy_cons. apply no_empty_root_mapping_dict_set; auto. }
  split; [|exact Hroot'].
  apply extract_keys_complete with v; [exact Hroot'|].
  apply set_by_policy_reaches, str_split_nonempty.
Qed.

Lemma patched_key_is_flattened_witness :
  no_empty_root_mapping sample_tree = true /\
  String.prefix "." "x.new.deep" = false /\
  exists updated,
    set_nested_value sample_tree "x.new.deep" (JStr "t") = Some updated /\
    In "x.new.deep"%string (extract_keys_recursive updated "") /\
    no_empty_root_mapping updated = true.
Proof.
  split; [reflexivity|]. split; [reflexivity|].
  exact (@patched_key_is_flattened
           [("x", JDict [("y", JStr "v"); ("n", JNum "3")]); ("z", JStr "w")]
           "x.new.deep" "t" eq_refl eq_refl).
Defined.

(** ** The differ's report *)

Lemma get_keys_NoDup h lang ns : NoDup (get_keys_for_language h lang ns).
Proof.
  unfold get_keys_for_language, py_set.
  destruct (open_read h (locale_file_path lang ns)); try apply NoDup_nodup.
  destruct (strip_is_empty h text); try apply NoDup_nodup.
  destruct (json_loads h text); apply NoDup_nodup.
Qed.

Lemma get_keys_loaded h lang ns data :
  loads h (locale_file_path lang ns) data ->
  forall k, In k (get_keys_for_language h lang ns) <->
            In k (extract_keys_recursive data "").
Proof.
  intros (content & Hr & He & Hd) k. unfold get_keys_for_language, py_set.
  rewrite Hr, He, Hd. apply nodup_In.
Qed.

Lemma in_set_difference a b k :
  In k (set_difference a b) <-> In k a /\ ~ In k b.
Proof.
  unfold set_difference. rewrite filter_In, negb_true_iff. split.
  - intros [Ha Hb]. split; [assumption|]. intros Hin.
    assert (existsb (String.eqb k) b = true); [|congruence].
    apply existsb_exists. exists k. split; [assumption|apply String.eqb_refl].
  - intros [Ha Hb]. split; [assumption|].
    destruct (existsb (String.eqb k) b) eqn:E; [|reflexivity].
    apply existsb_exists in E as (x & Hx & Heq).
    apply String.eqb_eq in Heq. subst x. contradiction.
Qed.

Lemma NoDup_set_difference a b : NoDup a -> NoDup (set_difference a b).
Proof. apply NoDup_filter. Qed.

Lemma in_sorted_difference a b k :
  In k (sorted (set_difference a b)) <-> In k a /\ ~ In k b.
Proof.
  rewrite <- in_set_difference. split.
  - apply Permutation_in. symmetry. apply sorted_perm.
  - apply Permutation_in, sorted_perm.
Qed.

(** X10.  For each namespace the differ reports exactly the keys of the
    reference language that the target language lacks: the reported list
    is in ascending order, has no repetition, and holds a key if and only
    if the key is in the reference key set and not in the target key set. *)
Theorem differ_reports_set_difference : forall h ns,
  In ns namespaces ->
  exists missing,
    dict_get (result_label ns) (results_of h namespaces) = Some missing /\
    Sorted str_le missing /\
    NoDup missing /\
    (forall k, In k missing <->
               In k (get_keys_for_language h "en" ns) /\
               ~ In k (get_keys_for_language h "pl" ns)).
Proof.
  intros h ns Hin. eexists. split; [now apply results_of_get|].
  split; [apply sorted_ordered|]. split.
  - eapply Permutation_NoDup; [apply sorted_perm|].
    apply NoDup_set_difference, get_keys_NoDup.
  - apply in_sorted_difference.
Qed.

Lemma differ_reports_set_difference_witness :
  In "common"%string namespaces /\
  exists missing,
    dict_get (result_label "common") (results_of host_en_common_only namespaces)
      = Some missing /\
    Sorted str_le missing /\
    NoDup missing /\
    (forall k, In k missing <->
               In k (get_keys_for_language host_en_common_only "en" "common") /\
               ~ In k (get_keys_for_language host_en_common_only "pl" "common")).
Proof.
  assert (H : In "common"%string namespaces) by now left.
  split; [exact H|].
  exact (@differ_reports_set_difference host_en_common_only "common" H).
Defined.

(** X11.  When both files of a namespace load, a key is reported missing
    if and only if the flattening of the reference tree has it and the
    flattening of the target tree has not. *)
Theorem differ_compares_flattenings : forall h ns en_data pl_data,
  In ns namespaces ->
  loads h (locale_file_path "en" ns) en_data ->
  loads h (locale_file_path "pl" ns) pl_data ->
  exists missing,
    dict_get (result_label ns) (results_of h namespaces) = Some missing /\
    (forall k, In k missing <->
               In k (extract_keys_recursive en_data "") /\
               ~ In k (extract_keys_recursive pl_data "")).
Proof.
  intros h ns en_data pl_data Hin Hen Hpl.
  eexists. split; [now apply results_of_get|]. intros k.
  rewrite in_sorted_difference, (get_keys_loaded Hen), (get_keys_loaded Hpl).
  reflexivity.
Qed.

Lemma differ_compares_flattenings_witness :
  In "ui"%string namespaces /\
  loads host_both_ui (locale_file_path "en" "ui") sample_tree /\
  loads host_both_ui (locale_file_path "pl" "ui") (JDict [("z", JStr "w")]) /\
  ExtractKeys.main host_both_ui =
    [ "missing_pl_common_keys: []"%string;
      "missing_pl_entities_keys: []"%string;
      ("missing_pl_ui_keys: [" ++ dquote ++ "x.y" ++ dquote ++ "]")%string ] /\
  exists missing,
    dict_get (result_label "ui") (results_of host_both_ui namespaces) = Some missing /\
    (forall k, In k missing <->
               In k (extract_keys_recursive sample_tree "") /\
               ~ In k (extract_keys_recursive (JDict [("z", JStr "w")]) "")).
Proof.
  assert (Hin : In "ui"%string namespaces) by (right; right; now left).
  assert (Hen : loads host_both_ui (locale_file_path "en" "ui") sample_tree)
    by (exists "en-ui"%string; repeat split).
  assert (Hpl : loads host_both_ui (locale_file_path "pl" "ui")
                      (JDict [("z", JStr "w")]))
    by (exists "pl-ui"%string; repeat split).
  split; [exact Hin|]. split; [exact Hen|]. split; [exact Hpl|].
  split; [reflexivity|].
  exact (@differ_compares_flattenings host_both_ui "ui" sample_tree
           (JDict [("z", JStr "w")]) Hin Hen Hpl).
Defined.

(** ** The extractor on unusual files *)

Lemma get_not_mapping data key :
  isinstance_dict data = false -> get_value_from_nested_dict data key = None.
Proof.
  intros Hd. unfold get_value_from_nested_dict.
  now rewrite get_loop_not_dict by (assumption || apply str_split_nonempty).
Qed.

(** X12.  A value that is not a mapping (a file that holds a list, a
    string, a number) answers not-found to every dotted key, and the
    extractor's loop then records the diagnostic string for every
    requested key. *)
Theorem extractor_on_non_mapping : forall data keys key,
  isinstance_dict data = false ->
  get_value_from_nested_dict data key = None /\
  (In key keys ->
   dict_get key (collect data keys) = Some (JStr (error_value key))).
Proof.
  intros data keys key Hd. split; [now apply get_not_mapping|].
  intros Hin. unfold collect. rewrite fold_record_get_in by assumption.
  unfold entry_for. now rewrite get_not_mapping.
Qed.

Lemma extractor_on_non_mapping_witness :
  isinstance_dict (JList [JStr "x"]) = false /\
  get_value_from_nested_dict (JList [JStr "x"]) "x" = None /\
  (In "x"%string ["x"; "y.z"]%string ->
   dict_get "x" (collect (JList [JStr "x"]) ["x"; "y.z"]%string)
     = Some (JStr (error_value "x"))).
Proof.
  split; [reflexivity|].
  exact (@extractor_on_non_mapping (JList [JStr "x"]) ["x"; "y.z"]%string "x" eq_refl).
Defined.

(** ** From the patcher to the extractor *)

Lemma dict_set_fresh (V : Type) (d : list (string * V)) k v :
  dict_mem k d = false -> dict_set d k v = d ++ [(k, v)].
Proof.
  unfold dict_mem. induction d as [|[k' v'] tl IH]; simpl; [reflexivity|].
  destruct (String.eqb k k'); [discriminate|].
  intros H. now rewrite IH.
Qed.

Lemma fold_record_fresh data keys : forall acc,
  NoDup keys ->
  (forall k, In k keys -> ~ In k (dict_keys acc)) ->
  fold_left (record_key data) keys acc =
  acc ++ map (fun k => (k, entry_for data k)) keys.
Proof.
  induction keys as [|a keys IH]; intros acc Hnd Hfresh; simpl.
  - now rewrite app_nil_r.
  - inversion Hnd as [|a' l Ha Hnd']; subst.
    assert (Hmem : dict_mem a acc = false).
    { destruct (dict_mem a acc) eqn:E; [|reflexivity].
      apply dict_mem_keys in E. exfalso. apply (Hfresh a); simpl; auto. }
    rewrite record_key_eq, dict_set_fresh by assumption.
    rewrite IH, <- app_assoc; [reflexivity|assumption|].
    intros k Hk. unfold dict_keys. rewrite map_app, in_app_iff. simpl.
    intros [H|[->|[]]]; [|contradiction].
    apply (Hfresh k); simpl; auto.
Qed.

Lemma independentb_irrefl k : independentb k k = false.
Proof. unfold independentb. now rewrite is_prefix_refl. Qed.

Lemma pairwise_independent_NoDup keys :
  pairwise_independent keys = true -> NoDup keys.
Proof.
  induction keys as [|k tl IH]; simpl; intros H; constructor;
    apply andb_true_iff in H as [Hk Htl]; auto.
  intros Hin. rewrite forallb_forall in Hk. specialize (Hk k Hin).
  rewrite independentb_irrefl in Hk. discriminate.
Qed.

(** X13.  The extractor reads back what the patcher wrote: when the patch
    keys address pairwise independent paths, looking up the patch keys in
    the patched tree gives the patch itself, entry by entry and in the
    same order, with no diagnostic entry. *)
Theorem extractor_reads_back_patches : forall items patches,
  pairwise_independent (map fst patches) = true ->
  exists updated,
    apply_patches (JDict items) patches = Some updated /\
    collect updated (map fst patches) =
    map (fun kv => (fst kv, JStr (snd kv))) patches.
Proof.
  intros items patches Hpw. eexists. split; [apply apply_patches_policy|].
  unfold collect. rewrite fold_record_fresh;
    [|now apply pairwise_independent_NoDup|tauto].
  cbn [app]. rewrite map_map. apply map_ext_in.
  intros [k v] Hin. cbn [fst snd]. unfold entry_for, get_value_from_nested_dict.
  rewrite (@patch_all_readable patches items k v Hpw Hin). reflexivity.
Qed.

Lemma extractor_reads_back_patches_witness :
  pairwise_independent (map fst [("a.b", "1"); ("c", "2")]%string) = true /\
  exists updated,
    apply_patches (JDict [("c", JDict [])]) [("a.b", "1"); ("c", "2")]%string
      = Some updated /\
    collect updated (map fst [("a.b", "1"); ("c", "2")]%string) =
    map (fun kv => (fst kv, JStr (snd kv))) [("a.b", "1"); ("c", "2")]%string.
Proof.
  split; [reflexivity|].
  exact (@extractor_reads_back_patches [("c", JDict [])]
           [("a.b", "1"); ("c", "2")]%string eq_refl).
Defined.

(** ** The patcher's [main] *)

Lemma new_translations_independent :
  pairwise_independent (map fst new_translations) = true.
Proof. vm_compute. reflexivity. Qed.

Lemma new_translations_nonempty : new_translations <> [].
Proof. unfold new_translations. discriminate. Qed.

Lemma update_main_cases h :
  UpdatePlUi.main h =
  match load_existing h with
  | None => Uncaught
  | Some (JDict items) =>
      if open_write h target_file_path
      then Written target_file_path (JDict (patch_all items new_translations))
      else ExitFailure
  | Some _ => Uncaught
  end.
Proof.
  unfold UpdatePlUi.main. destruct (load_existing h) as [data|]; [|reflexivity].
  destruct data;
    try (rewrite apply_patches_not_mapping;
         [reflexivity|reflexivity|apply new_translations_nonempty]).
  now rewrite apply_patches_policy.
Qed.

(** X14.  Whenever the patcher's [main] writes, it writes to the target
    path, the write was possible, the tree written is a mapping, and every
    translation of the patch set is readable in it under its dotted key. *)
Theorem update_main_written : forall h path tree,
  UpdatePlUi.main h = Written path tree ->
  path = target_file_path /\
  open_write h target_file_path = true /\
  (exists items, tree = JDict items) /\
  (forall k v, In (k, v) new_translations ->
               get_value_from_nested_dict tree k = Some (JStr v)).
Proof.
  intros h path tree. rewrite update_main_cases.
  destruct (load_existing h) as [data|]; [|discriminate].
  destruct data; try discriminate.
  destruct (open_write h target_file_path); [|discriminate].
  remember (patch_all items new_translations) as written eqn:Ew.
  remember target_file_path as target eqn:Et.
  intros Hw. injection Hw as Hpath Htree. subst path tree.
  split; [reflexivity|]. split; [reflexivity|].
  split; [eexists; reflexivity|]. intros k v Hin.
  pose proof (@patch_all_readable new_translations items k v
                new_translations_independent Hin) as Hread.
  unfold get_value_from_nested_dict. rewrite Ew, Hread. reflexivity.
Qed.

Lemma update_main_written_witness :
  exists tree,
    UpdatePlUi.main (host_with_target sample_tree true)
      = Written target_file_path tree /\
    target_file_path = target_file_path /\
    open_write (host_with_target sample_tree true) target_file_path = true /\
    (exists items, tree = JDict items) /\
    (forall k v, In (k, v) new_translations ->
                 get_value_from_nested_dict tree k = Some (JStr v)).
Proof.
  eexists. split; [vm_compute; reflexivity|].
  apply (@update_main_written (host_with_target sample_tree true)).
  vm_compute. reflexivity.
Defined.

Lemma load_existing_loaded h data :
  loads h target_file_path data -> load_existing h = Some data.
Proof.
  intros (content & Hr & He & Hd). unfold load_existing. now rewrite Hr, He, Hd.
Qed.

(** X15.  A target file that holds valid JSON which is not an object (a
    list, a string, a number, [null]) makes the patcher's [main] end with
    an uncaught exception: the first item assignment fails and nothing is
    written. *)
Theorem update_main_non_mapping : forall h data,
  loads h target_file_path data ->
  isinstance_dict data = false ->
  UpdatePlUi.main h = Uncaught.
Proof.
  intros h data Hl Hd. rewrite update_main_cases, (load_existing_loaded Hl).
  destruct data; try reflexivity; discriminate.
Qed.

Lemma update_main_non_mapping_witness :
  loads (host_with_target (JList []) true) target_file_path (JList []) /\
  isinstance_dict (JList []) = false /\
  UpdatePlUi.main (host_with_target (JList []) true) = Uncaught.
Proof.
  assert (Hl : loads (host_with_target (JList []) true) target_file_path (JList []))
    by (exists "pl-ui"%string; repeat split).
  split; [exact Hl|]. split; [reflexivity|].
  exact (@update_main_non_mapping (host_with_target (JList []) true) (JList [])
           Hl eq_refl).
Defined.



(** X17.  A missing, empty or malformed target file is no obstacle: the
    patcher's [main] then starts from the empty mapping, so what it writes
    (or fails to write, ending with exit status 1) is the patch set alone,
    and the flattening of that tree is the list of patch keys in order. *)
Theorem update_main_starts_empty : forall h,
  (open_read h target_file_path = FileNotFoundError \/
   exists content,
     open_read h target_file_path = Content content /\
     (strip_is_empty h content = true \/
      (strip_is_empty h content = false /\
       json_loads h content = JSONDecodeError))) ->
  exists fresh,
    apply_patches (JDict []) new_translations = Some fresh /\
    UpdatePlUi.main h =
      (if open_write h target_file_path
       then Written target_file_path fresh else ExitFailure) /\
    extract_keys_recursive fresh "" = map fst new_translations.
Proof.
  intros h Hfail.
  assert (Hload : load_existing h = Some (JDict [])).
  { unfold load_existing.
    destruct Hfail as [->|(content & -> & [->|[-> ->]])]; reflexivity. }
  eexists. split; [apply apply_patches_policy|]. split.
  - now rewrite update_main_cases, Hload.
  - vm_compute. reflexivity.
Qed.

Lemma update_main_starts_empty_witness :
  (open_read host_en_common_only target_file_path = FileNotFoundError \/
   exists content,
     open_read host_en_common_only target_file_path = Content content /\
     (strip_is_empty host_en_common_only content = true \/
      (strip_is_empty host_en_common_only content = false /\
       json_loads host_en_common_only content = JSONDecodeError))) /\
  exists fresh,
    apply_patches (JDict []) new_translations = Some fresh /\
    UpdatePlUi.main host_en_common_only =
      (if open_write host_en_common_only target_file_path
       then Written target_file_path fresh else ExitFailure) /\
    extract_keys_recursive fresh "" = map fst new_translations.
Proof.
  assert (H : open_read host_en_common_only target_file_path = FileNotFoundError \/
              exists content,
                open_read host_en_common_only target_file_path = Content content /\
                (strip_is_empty host_en_common_only content = true \/
                 (strip_is_empty host_en_common_only content = false /\
                  json_loads host_en_common_only content = JSONDecodeError)))
    by (left; reflexivity).
  split; [exact H|].
  exact (@update_main_starts_empty host_en_common_only H).
Defined.

(** X18.  The patcher is stable on its own output: when the target file
    holds a tree that a run of [main] wrote, a further run writes that
    very tree again. *)
Theorem update_main_second_run : forall h0 path tree h,
  UpdatePlUi.main h0 = Written path tree ->
  loads h target_file_path tree ->
  open_write h target_file_path = true ->
  UpdatePlUi.main h = Written target_file_path tree.
Proof.
  intros h0 path tree h Hfirst Hl Hw.
  rewrite update_main_cases in Hfirst.
  destruct (load_existing h0) as [data|]; [|discriminate].
  destruct data; try discriminate.
  destruct (open_write h0 target_file_path); [|discriminate].
  remember (patch_all items new_translations) as written eqn:Ew.
  remember target_file_path as target eqn:Et.
  injection Hfirst as Hpath Htree. subst path tree.
  rewrite update_main_cases. subst target.
  rewrite (load_existing_loaded Hl), Hw. do 2 f_equal.
  apply patch_all_fixed. intros k v Hin. apply get_loop_reaches.
  rewrite Ew. apply patch_all_readable; [apply new_translations_independent|assumption].
Qed.

Lemma update_main_second_run_witness :
  exists tree,
    UpdatePlUi.main host_en_common_only = Written target_file_path tree /\
    loads (host_with_target tree true) target_file_path tree /\
    open_write (host_with_target tree true) target_file_path = true /\
    UpdatePlUi.main (host_with_target tree true) = Written target_file_path tree.
Proof.
  eexists. split; [vm_compute; reflexivity|].
  split; [exists "pl-ui"%string; repeat split|]. split; [reflexivity|].
  apply (@update_main_second_run host_en_common_only target_file_path).
  - vm_compute. reflexivity.
  - exists "pl-ui"%string. repeat split.
  - reflexivity.
Defined.

(** ** The flattening has no repeated key *)

Lemma entry_keys_head_below prefix key value k :
  truthy prefix = true ->
  uniq_keys value = true ->
  dot_free_keys value = true ->
  has_char dot key = false ->
  In k (entry_keys prefix (key, value)) ->
  exists segs, str_split dot k = str_split dot prefix ++ key :: segs.
Proof.
  intros Hp Hu Hd Hkey Hin. cbn [entry_keys] in Hin. rewrite Hp in Hin.
  destruct value; try contradiction.
  - destruct Hin as [<-|[]]. exists [].
    now rewrite str_split_app_dot, (str_split_dot_free _ Hkey).
  - destruct (extract_keys_sound_below _ _ _ (truthy_append _ _ Hp) Hu Hd Hin)
      as (segs & s & Hs & _).
    exists segs.
    now rewrite Hs, str_split_app_dot, (str_split_dot_free _ Hkey), <- app_assoc.
Qed.

Lemma entry_keys_head_root key value k :
  uniq_keys value = true ->
  dot_free_keys value = true ->
  has_char dot key = false ->
  (isinstance_dict value = true -> truthy key = true) ->
  In k (entry_keys "" (key, value)) ->
  exists segs, str_split dot k = key :: segs.
Proof.
  intros Hu Hd Hkey Hne Hin. cbn [entry_keys truthy] in Hin.
  destruct value; try contradiction.
  - destruct Hin as [<-|[]]. exists []. now apply str_split_dot_free.
  - destruct (extract_keys_sound_below _ _ _ (Hne eq_refl) Hu Hd Hin)
      as (segs & s & Hs & _).
    exists segs. now rewrite Hs, (str_split_dot_free _ Hkey).
Qed.

Lemma NoDup_flat_map_entries (f : string * json -> list string) items :
  NoDup (map fst items) ->
  (forall kv, In kv items -> NoDup (f kv)) ->
  (forall k1 v1 k2 v2 x,
     In (k1, v1) items -> In (k2, v2) items ->
     In x (f (k1, v1)) -> In x (f (k2, v2)) -> k1 = k2) ->
  NoDup (flat_map f items).
Proof.
  induction items as [|[k0 v0] tl IH]; intros Hnd Hpiece Hsep; simpl; [constructor|].
  inversion Hnd as [|k0' l Hk0 Hnd']; subst.
  apply NoDup_app.
  - apply Hpiece. now left.
  - apply IH; [assumption| |].
    + intros kv Hin. apply Hpiece. now right.
    + intros k1 v1 k2 v2 x H1 H2. apply Hsep; now right.
  - intros x Hx Hin. apply in_flat_map in Hin as ([k2 v2] & H2 & Hx2).
    assert (k0 = k2) as <-.
    { apply (Hsep k0 v0 k2 v2 x); auto; [now left|now right]. }
    apply Hk0. apply (in_map fst) in H2. exact H2.
Qed.

Lemma extract_keys_NoDup_below : forall data prefix,
  truthy prefix = true ->
  uniq_keys data = true ->
  dot_free_keys data = true ->
  NoDup (extract_keys_recursive data prefix).
Proof.
  induction data as [| | | | |items IH] using json_tree_ind;
    intros prefix Hp Hu Hd; try constructor.
  rewrite extract_keys_dict. rewrite Forall_forall in IH.
  apply NoDup_flat_map_entries.
  - apply distinct_NoDup. now apply uniq_keys_dict in Hu as [Hdist _].
  - intros [key value] Hin.
    destruct (uniq_keys_entry _ _ _ Hu Hin) as [_ Huv].
    destruct (dot_free_keys_entry _ _ _ Hd Hin) as [_ Hdv].
    specialize (IH (key, value) Hin). cbn [snd] in IH.
    cbn [entry_keys]. rewrite Hp. destruct value; try constructor.
    + simpl. tauto.
    + constructor.
    + apply IH; auto. now apply truthy_append.
  - intros k1 v1 k2 v2 x H1 H2 Hx1 Hx2.
    destruct (uniq_keys_entry _ _ _ Hu H1) as [_ Hu1].
    destruct (dot_free_keys_entry _ _ _ Hd H1) as [Hk1 Hd1].
    destruct (uniq_keys_entry _ _ _ Hu H2) as [_ Hu2].
    destruct (dot_free_keys_entry _ _ _ Hd H2) as [Hk2 Hd2].
    destruct (entry_keys_head_below _ _ _ _ Hp Hu1 Hd1 Hk1 Hx1) as [s1 E1].
    destruct (entry_keys_head_below _ _ _ _ Hp Hu2 Hd2 Hk2 Hx2) as [s2 E2].
    rewrite E1 in E2. apply app_inv_head in E2. congruence.
Qed.

Lemma extract_keys_NoDup data :
  uniq_keys data = true ->
  dot_free_keys data = true ->
  no_empty_root_mapping data = true ->
  NoDup (extract_keys_recursive data "").
Proof.
  intros Hu Hd Hn. destruct data; try constructor.
  rewrite extract_keys_dict. apply NoDup_flat_map_entries.
  - apply distinct_NoDup. now apply uniq_keys_dict in Hu as [Hdist _].
  - intros [key value] Hin.
    destruct (uniq_keys_entry _ _ _ Hu Hin) as [_ Huv].
    destruct (dot_free_keys_entry _ _ _ Hd Hin) as [_ Hdv].
    cbn [entry_keys truthy]. destruct value; try constructor.
    + simpl. tauto.
    + constructor.
    + apply extract_keys_NoDup_below; auto.
      now apply (no_empty_root_mapping_entry _ _ _ Hn Hin).
  - intros k1 v1 k2 v2 x H1 H2 Hx1 Hx2.
    destruct (uniq_keys_entry _ _ _ Hu H1) as [_ Hu1].
    destruct (dot_free_keys_entry _ _ _ Hd H1) as [Hk1 Hd1].
    destruct (uniq_keys_entry _ _ _ Hu H2) as [_ Hu2].
    destruct (dot_free_keys_entry _ _ _ Hd H2) as [Hk2 Hd2].
    assert (Hroot : forall k v, In (k, v) items ->
                                isinstance_dict v = true -> truthy k = true).
    { intros k v Hin Hv. destruct v; try discriminate.
      now apply (no_empty_root_mapping_entry _ _ _ Hn Hin). }
    destruct (entry_keys_head_root _ _ _ Hu1 Hd1 Hk1 (Hroot _ _ H1) Hx1) as [s1 E1].
    destruct (entry_keys_head_root _ _ _ Hu2 Hd2 Hk2 (Hroot _ _ H2) Hx2) as [s2 E2].
    congruence.
Qed.

(** X19.  On a tree whose mappings have one entry per key, whose keys
    contain no separator and whose root has no empty key that holds a
    mapping, the flattener emits every dotted key once: the list has no
    repetition, so turning it into a set drops nothing. *)
Theorem flatten_has_no_duplicates : forall tree,
  uniq_keys tree = true ->
  dot_free_keys tree = true ->
  no_empty_root_mapping tree = true ->
  NoDup (extract_keys_recursive tree "") /\
  py_set (extract_keys_recursive tree "") = extract_keys_recursive tree "".
Proof.
  intros tree Hu Hd Hn.
  assert (H : NoDup (extract_keys_recursive tree ""))
    by now apply extract_keys_NoDup.
  split; [exact H|]. now apply nodup_fixed_point.
Qed.

Lemma flatten_has_no_duplicates_witness :
  uniq_keys sample_tree_with_list = true /\
  dot_free_keys sample_tree_with_list = true /\
  no_empty_root_mapping sample_tree_with_list = true /\
  NoDup (extract_keys_recursive sample_tree_with_list "") /\
  py_set (extract_keys_recursive sample_tree_with_list "")
    = extract_keys_recursive sample_tree_with_list "".
Proof.
  repeat (split; [reflexivity|]).
  exact (@flatten_has_no_duplicates sample_tree_with_list eq_refl eq_refl eq_refl).
Defined.

(** ** The differ's view of a patch *)

Lemma no_empty_root_mapping_set_by_policy items key v :
  no_empty_root_mapping (JDict items) = true ->
  String.prefix "." key = false ->
  no_empty_root_mapping
    (JDict (set_by_policy items (str_split dot key) (JStr v))) = true.
Proof.
  intros Hroot Hkey.
  destruct (first_segment_of_key key Hkey) as [->|(k1 & rest & -> & Hk1)].
  - cbn [set_by_policy]. apply no_empty_root_mapping_dict_set; auto.
  - rewrite set_by_policy_cons. apply no_empty_root_mapping_dict_set; auto.
Qed.

(** X20.  A patch changes the flattening at its own key only: on a tree
    whose mappings have one entry per key, whose keys contain no separator
    and whose root has no empty key that holds a mapping, after patching a
    key that does not begin with a dot with a string, a dotted key
    independent of the patched one is in the flattening of the patched
    tree if and only if it was in the flattening before. *)
Theorem patch_keeps_other_flattened_keys : forall items key v other,
  uniq_keys (JDict items) = true ->
  dot_free_keys (JDict items) = true ->
  no_empty_root_mapping (JDict items) = true ->
  String.prefix "." key = false ->
  independent other key ->
  exists updated,
    set_nested_value (JDict items) key (JStr v) = Some updated /\
    (In other (extract_keys_recursive updated "") <->
     In other (extract_keys_recursive (JDict items) "")).
Proof.
  intros items key v other Hu Hd Hn Hkey [H1 H2]. eexists.
  split; [apply set_nested_value_policy|].
  pose proof (uniq_keys_set_by_policy (str_split dot key) items (JStr v) Hu eq_refl)
    as Hu'.
  pose proof (dot_free_keys_set_by_policy items (JStr v)
                (str_split_segments_dot_free key) Hd eq_refl) as Hd'.
  pose proof (no_empty_root_mapping_set_by_policy items key v Hn Hkey) as Hn'.
  assert (Hframe : forall s,
    reaches (JDict (set_by_policy items (str_split dot key) (JStr v)))
            (str_split dot other) (JStr s) <->
    reaches (JDict items) (str_split dot other) (JStr s)).
  { intros s. rewrite <- !get_loop_reaches. now rewrite set_by_policy_frame. }
  split; intros Hin.
  - destruct (extract_keys_sound _ _ Hu' Hd' Hn' Hin) as [s Hs].
    apply extract_keys_complete with s; [assumption|]. now apply Hframe.
  - destruct (extract_keys_sound _ _ Hu Hd Hn Hin) as [s Hs].
    apply extract_keys_complete with s; [assumption|]. now apply Hframe.
Qed.

Lemma patch_keeps_other_flattened_keys_witness :
  uniq_keys sample_tree = true /\
  dot_free_keys sample_tree = true /\
  no_empty_root_mapping sample_tree = true /\
  String.prefix "." "x.n" = false /\
  independent "x.y" "x.n" /\
  exists updated,
    set_nested_value sample_tree "x.n" (JStr "three") = Some updated /\
    (In "x.y"%string (extract_keys_recursive updated "") <->
     In "x.y"%string (extract_keys_recursive sample_tree "")).
Proof.
  assert (H : independent "x.y" "x.n") by (split; reflexivity).
  repeat (split; [reflexivity|]). split; [exact H|].
  exact (@patch_keeps_other_flattened_keys
           [("x", JDict [("y", JStr "v"); ("n", JNum "3")]); ("z", JStr "w")]
           "x.n" "three" "x.y" eq_refl eq_refl eq_refl eq_refl H).
Defined.
